(** * Groceri: the scan pipeline, embedded and verified

    A shallow embedding of the resolution-and-evaluation core of Groceri:

    - [src/types/item.ts]: [Item], [Recommendation], [DealTag];
    - [src/api/kroger.ts] and [src/api/walmart.ts]: the two provider adapters;
    - [src/api/index.ts]: [fetchProductWithDeals] and [searchProducts];
    - the scanner modal: [evaluateDeal] and [handleBarcodeScanned], with the
      history it feeds;
    - the search screen's effect, and [toggleItem] of the two list screens.

    JavaScript numbers are IEEE 754 binary64 values, so prices are Rocq's
    primitive floats and every comparison and arithmetic operation of the
    source is the float operation of the same name.  Network calls are
    state passing over a log of the requests made so far; what a provider
    answers is a function of its own log and the request, so the theorems
    hold for every provider behaviour.  A response body is read through the
    fields the adapter reads: text fields at the types the adapters declare
    for them ([string], possibly absent), price fields as the untyped JSON
    values on which the adapters call [??], [!= null] and [Number].  A run of
    a screen handler is the sequence of state updates it makes. *)

From Stdlib Require Import Floats ZArith List String Ascii Bool Lia Sorted.
Import ListNotations.

(* Decimal literals such as 0.05 denote the nearest binary64 value, as they
   do in JavaScript. *)
Set Warnings "-inexact-float".

(* ================================================================= *)
(** ** JavaScript values and built-ins *)

(** [ToBoolean] on a number: [+0], [-0] and [NaN] are falsy. *)
Definition truthy (n : float) : bool := negb (is_zero n || is_nan n).

(** [ToBoolean] on [string | undefined]: [undefined] and [''] are falsy. *)
Definition truthyString (s : option string) : bool :=
  match s with
  | Some s => negb (s =? "")%string
  | None => false
  end.

(** A JSON value in a price field, as the adapters observe it.  They ask two
    things of such a field: whether it is [null] or [undefined] ([??],
    [!= null]), and what [Number(.)] makes of it.  [JNumber n] is the number
    [n] (or any value that [Number] converts to a number [n], such as a
    numeric string); [JNotNumeric] is a present value with no numeric reading
    (a string such as 'N/A', an object), which [Number] maps to [NaN]. *)
Inductive JsValue : Type :=
| JUndefined
| JNull
| JNumber (n : float)
| JNotNumeric.

Definition nullish (v : JsValue) : bool :=
  match v with
  | JUndefined | JNull => true
  | JNumber _ | JNotNumeric => false
  end.

(** [Number(v)]. *)
Definition Number (v : JsValue) : float :=
  match v with
  | JUndefined => nan
  | JNull => 0
  | JNumber n => n
  | JNotNumeric => nan
  end.

(** [v ?? w] on JSON values. *)
Definition coalesce (v w : JsValue) : JsValue := if nullish v then w else v.

(** [o ?? d] where [o] may be [undefined] and [d] is defined. *)
Definition orElse {A : Type} (o : option A) (d : A) : A :=
  match o with
  | Some x => x
  | None => d
  end.

(** [o ?? o'] where both may be [undefined]. *)
Definition orTry {A : Type} (o o' : option A) : option A :=
  match o with
  | Some _ => o
  | None => o'
  end.

Infix "??" := orElse (at level 45, left associativity).

(** [arr.slice(start, end)] for non-negative indices. *)
Definition slice {A : Type} (start end_ : nat) (l : list A) : list A :=
  firstn (end_ - start) (skipn start l).

(** [Array.prototype.sort(compareFn)].  The sort is stable (ECMAScript 2019):
    an element moves right past exactly those elements the comparator orders
    strictly before it, that is those [y] with [compareFn(x, y) > 0]; a [NaN]
    result counts as [+0].  The language fixes the result, not the algorithm:
    with the comparator of this program, on prices that are numbers, the list
    below is the only one a stable sort can return ([sort_is_the_stable_sort]). *)
Fixpoint insertBy {A : Type} (compareFn : A -> A -> float) (x : A) (l : list A) : list A :=
  match l with
  | [] => [x]
  | y :: l' =>
      if (0 <? compareFn x y)%float then y :: insertBy compareFn x l' else x :: y :: l'
  end.

Fixpoint sort {A : Type} (compareFn : A -> A -> float) (l : list A) : list A :=
  match l with
  | [] => []
  | x :: l' => insertBy compareFn x (sort compareFn l')
  end.

(** [s.includes(sub)]. *)
Fixpoint includes (s sub : string) : bool :=
  String.prefix sub s ||
  match s with
  | EmptyString => false
  | String _ s' => includes s' sub
  end.

(* ================================================================= *)
(** ** Data model ([src/types/item.ts]) *)

Inductive DealTag : Type := DEAL | SO_SO | NO_DEAL.

Module Recommendation.
Record t : Type := mk {
  id : string;
  name : string;
  price : float;
  store : string;
  distance : option float
}.
End Recommendation.

Module Item.
Record t : Type := mk {
  id : string;
  name : string;
  brand : option string;
  price : float;
  image : string;
  store : option string;
  coordinates : option (float * float);
  isOrganic : option bool;
  tag : option DealTag;
  recommendations : option (list Recommendation.t)
}.
End Item.

(** [{ ...item, store }] and the like: one field replaced. *)
Definition withStore (item : Item.t) (store : option string) : Item.t :=
  Item.mk (Item.id item) (Item.name item) (Item.brand item) (Item.price item)
    (Item.image item) store (Item.coordinates item) (Item.isOrganic item)
    (Item.tag item) (Item.recommendations item).

Definition withCoordinates (item : Item.t) (coordinates : option (float * float)) : Item.t :=
  Item.mk (Item.id item) (Item.name item) (Item.brand item) (Item.price item)
    (Item.image item) (Item.store item) coordinates (Item.isOrganic item)
    (Item.tag item) (Item.recommendations item).

(* ================================================================= *)
(** ** The deal evaluator (scanner modal, [evaluateDeal]) *)

Definition margin : float := 0.05.

Definition evaluateDeal (scanned : Item.t) (deals : list Recommendation.t) : Item.t :=
  let '(tag, recommendations) :=
    match deals with
    | cheapest :: _ =>
        if (Item.price scanned <=? Recommendation.price cheapest)%float then
          (Some DEAL, Some (slice 0 2 deals))
        else if (Item.price scanned <=? Recommendation.price cheapest * (1 + margin))%float then
          (Some SO_SO,
           Some (filter
                   (fun d =>
                      (abs (Recommendation.price d - Item.price scanned) / Item.price scanned
                       <=? margin)%float)
                   deals))
        else
          (Some NO_DEAL, Some (slice 0 3 deals))
    | [] =>
        (* No competitor deals; default tag if undefined *)
        (Some (Item.tag scanned ?? DEAL), None)
    end in
  Item.mk (Item.id scanned) (Item.name scanned) (Item.brand scanned) (Item.price scanned)
    (Item.image scanned) (Item.store scanned) (Item.coordinates scanned)
    (Item.isOrganic scanned) tag recommendations.

(* ================================================================= *)
(** ** The network *)

(** What one [fetch] of a JSON endpoint comes to: [fetch] throws, the
    response is not [ok], [res.json()] throws, or a decoded body. *)
Inductive Response (A : Type) : Type :=
| NetworkError
| HttpError (status : nat)
| DecodeError
| Ok (body : A).

Arguments NetworkError {A}.
Arguments HttpError {A} status.
Arguments DecodeError {A}.
Arguments Ok {A} body.

(** The environment variables the adapters read. *)
Record Env : Type := {
  KROGER_CLIENT_ID : option string;
  KROGER_CLIENT_SECRET : option string;
  WALMART_PUBLISHER_ID : option string;
  WALMART_API_KEY : option string
}.

(** *** Kroger: requests and response bodies, by the fields the adapter reads *)

Record KrogerLocationsQuery : Type := {
  filter_latLong : float * float;
  filter_radiusInMiles : float;
  filter_locationType : string
}.

Record KrogerProductsQuery : Type := {
  filter_upc : option string;
  filter_term : option string;
  filter_locationId : string;
  filter_limit : string
}.

Inductive KrogerCall : Type :=
| PostToken (clientId clientSecret : string)
| GetLocations (query : KrogerLocationsQuery) (token : string)
| GetProducts (query : KrogerProductsQuery) (token : string).

Record KrogerTokenJson : Type := { access_token : option string }.

Record KrogerLocationJson : Type := {
  loc_locationId : string;
  loc_address_name : option string;
  loc_geolocation_latitude : option float;
  loc_geolocation_longitude : option float
}.

Record KrogerLocationsJson : Type := { locations_data : option (list KrogerLocationJson) }.

(** [item.items?.[0]?.price]. *)
Record KrogerPriceJson : Type := { promo : JsValue; regular : JsValue }.

Record KrogerImageSizeJson : Type := { img_size : option string; img_url : option string }.

Record KrogerProductJson : Type := {
  prod_description : option string;
  prod_brand : option string;
  prod_items_0_price : option KrogerPriceJson;
  prod_images_0_sizes : option (list KrogerImageSizeJson);
  prod_attributes : option (list string);
  prod_primaryDepartment : option string;
  prod_upc : option string;
  prod_productId : option string
}.

Record KrogerProductsJson : Type := { products_data : option (list KrogerProductJson) }.

(** The Kroger service: each endpoint answers from the requests it has seen
    so far and the request at hand. *)
Record KrogerApi : Type := {
  kroger_token : list KrogerCall -> string -> string -> Response KrogerTokenJson;
  kroger_locations :
    list KrogerCall -> KrogerLocationsQuery -> string -> Response KrogerLocationsJson;
  kroger_products :
    list KrogerCall -> KrogerProductsQuery -> string -> Response KrogerProductsJson
}.

(** *** Walmart: requests and response bodies *)

(** A query value: a string, or [String(n)] of a number. *)
Inductive QueryValue : Type :=
| QString (s : string)
| QNumber (n : float).

Record WalmartCall : Type := {
  call_path : string;
  call_publisherId : option string;
  call_params : list (string * QueryValue);
  call_apiKey : option string
}.

Record WalmartStoreJson : Type := {
  st_no : option string;
  st_storeId : option string;
  st_id : option string;
  st_name : option string;
  st_storeType : option string;
  st_zip : option string;
  st_zipCode : option string;
  st_postalCode : option string
}.

Record WalmartStoresJson : Type := {
  stores_data : option (list WalmartStoreJson);
  stores_stores : option (list WalmartStoreJson)
}.

Record WalmartItemJson : Type := {
  it_salePrice : JsValue;
  it_listPrice : JsValue;
  it_msrp : JsValue;
  it_price : JsValue;
  it_name : option string;
  it_title : option string;
  it_shortName : option string;
  it_mediumImage : option string;
  it_imageUrl : option string;
  it_thumbnailImage : option string;
  it_brandName : option string;
  it_brand : option string;
  it_upc : option string;
  it_itemId : option string
}.

Record WalmartItemsJson : Type := {
  items_items : option (list WalmartItemJson);
  items_data : option (list WalmartItemJson)
}.

Record WalmartApi : Type := {
  walmart_stores : list WalmartCall -> WalmartCall -> Response WalmartStoresJson;
  walmart_items : list WalmartCall -> WalmartCall -> Response WalmartItemsJson;
  walmart_search : list WalmartCall -> WalmartCall -> Response WalmartItemsJson
}.

(** *** The state: the requests made so far, per provider, oldest first *)

Record World : Type := {
  krogerCalls : list KrogerCall;
  walmartCalls : list WalmartCall
}.

(** An asynchronous computation: it reads and extends the request logs. *)
Definition M (A : Type) : Type := World -> A * World.

Definition ret {A : Type} (a : A) : M A := fun w => (a, w).

Definition bind {A B : Type} (m : M A) (k : A -> M B) : M B :=
  fun w => let '(a, w') := m w in k a w'.

Notation "x <- m ;; k" := (bind m (fun x => k))
  (at level 61, m at next level, right associativity).

Definition logKroger (c : KrogerCall) (w : World) : World :=
  {| krogerCalls := krogerCalls w ++ [c]; walmartCalls := walmartCalls w |}.

Definition logWalmart (c : WalmartCall) (w : World) : World :=
  {| krogerCalls := krogerCalls w; walmartCalls := walmartCalls w ++ [c] |}.

(** The body of a response, [None] for the three failures the adapters
    catch and turn into their empty result. *)
Definition bodyOf {A : Type} (r : Response A) : option A :=
  match r with
  | Ok body => Some body
  | NetworkError | HttpError _ | DecodeError => None
  end.

(* ================================================================= *)
(** ** The adapters and the aggregator *)

Section Groceri.

(** [String.prototype.toLowerCase] and [String.prototype.trim]: whatever they
    compute, the theorems below hold. *)
Variable toLowerCase : string -> string.
Variable trim : string -> string.

(** [process.env] and the two services. *)
Variable env : Env.
Variable kroger : KrogerApi.
Variable walmart : WalmartApi.

(* ----------------------------------------------------------------- *)
(** *** [src/api/kroger.ts] *)

Record KrogerLocation : Type := {
  locationId : string;
  locationName : string;
  locationCoordinates : float * float
}.

Definition getKrogerAccessToken : M (option string) :=
  match KROGER_CLIENT_ID env, KROGER_CLIENT_SECRET env with
  | Some clientId, Some clientSecret =>
      if negb (truthyString (Some clientId)) || negb (truthyString (Some clientSecret)) then
        ret None
      else
        fun w =>
          (match bodyOf (kroger_token kroger (krogerCalls w) clientId clientSecret) with
           | Some data => access_token data
           | None => None
           end,
           logKroger (PostToken clientId clientSecret) w)
  | _, _ => ret None
  end.

Definition searchKrogerLocations (lat lon radiusMiles : float) (token : string)
  : M (list KrogerLocation) :=
  let query :=
    {| filter_latLong := (lat, lon);
       filter_radiusInMiles := radiusMiles;
       filter_locationType := "STORE" |} in
  fun w =>
    (match bodyOf (kroger_locations kroger (krogerCalls w) query token) with
     | Some json =>
         map (fun loc =>
                {| locationId := loc_locationId loc;
                   locationName := loc_address_name loc ?? loc_locationId loc;
                   locationCoordinates :=
                     (loc_geolocation_latitude loc ?? 0%float,
                      loc_geolocation_longitude loc ?? 0%float) |})
             (locations_data json ?? [])
     | None => []
     end,
     logKroger (GetLocations query token) w).

(** [Number(priceInfo.promo ?? priceInfo.regular ?? 0)]. *)
Definition krogerPrice (priceInfo : KrogerPriceJson) : float :=
  Number (coalesce (coalesce (promo priceInfo) (regular priceInfo)) (JNumber 0)).

(** [{}]. *)
Definition emptyPriceInfo : KrogerPriceJson := {| promo := JUndefined; regular := JUndefined |}.

Definition krogerImageUrl (images : list KrogerImageSizeJson) : string :=
  orTry (match find (fun s => match img_size s with
                              | Some size => (size =? "medium")%string
                              | None => false
                              end) images with
         | Some s => img_url s
         | None => None
         end)
        (match hd_error images with
         | Some s => img_url s
         | None => None
         end)
  ?? ""%string.

Definition krogerIsOrganic (attributes : option (list string)) : bool :=
  match attributes with
  | Some attrs => existsb (fun attr => includes (toLowerCase attr) "organic") attrs
  | None => false
  end.

(** [item.description ?? item.description?.consumer ?? 'Unknown Product']: the
    middle operand is reached only when [item.description] is null or
    undefined, and is [undefined] then. *)
Definition krogerProductName (item : KrogerProductJson) : string :=
  orTry (prod_description item) None ?? "Unknown Product"%string.

Definition getKrogerProductByUPC (upc locationId : string) (token : string)
  : M (option Item.t) :=
  let query :=
    {| filter_upc := Some upc;
       filter_term := None;
       filter_locationId := locationId;
       filter_limit := "1" |} in
  fun w =>
    (match bodyOf (kroger_products kroger (krogerCalls w) query token) with
     | Some json =>
         match hd_error (products_data json ?? []) with
         | Some item =>
             let priceInfo := prod_items_0_price item ?? emptyPriceInfo in
             let images := prod_images_0_sizes item ?? [] in
             Some (Item.mk upc
                     (krogerProductName item)
                     (prod_brand item)
                     (krogerPrice priceInfo)
                     (krogerImageUrl images)
                     (Some (prod_primaryDepartment item ?? "Kroger"%string))
                     None
                     (Some (krogerIsOrganic (prod_attributes item)))
                     None None)
         | None => None
         end
     | None => None
     end,
     logKroger (GetProducts query token) w).

(** The loop of [getKrogerDeals]: one lookup per store, in store order; a
    store is pushed when [product && product.price]. *)
Fixpoint krogerDealsLoop (upc token : string) (locations : list KrogerLocation)
  (deals : list Recommendation.t) : M (list Recommendation.t) :=
  match locations with
  | [] => ret deals
  | loc :: rest =>
      product <- getKrogerProductByUPC upc (locationId loc) token ;;
      krogerDealsLoop upc token rest
        (match product with
         | Some product =>
             if truthy (Item.price product) then
               deals ++ [Recommendation.mk (Item.id product) (Item.name product)
                           (Item.price product)
                           ("Kroger (" ++ locationName loc ++ ")")%string
                           None]
             else deals
         | None => deals
         end)
  end.

(** The [deals] array of [getKrogerDeals] when the loop ends, before it is
    sorted: the offers in store order. *)
Definition krogerOffers (upc : string) (lat lon radiusMiles : float) (token : string)
  : M (list Recommendation.t) :=
  locations <- searchKrogerLocations lat lon radiusMiles token ;;
  krogerDealsLoop upc token locations [].

Definition byPrice (a b : Recommendation.t) : float :=
  (Recommendation.price a - Recommendation.price b)%float.

Definition getKrogerDeals (upc : string) (lat lon radiusMiles : float) (token : string)
  : M (list Recommendation.t) :=
  deals <- krogerOffers upc lat lon radiusMiles token ;;
  ret (sort byPrice deals).

Definition krogerSearchQuery (term locationId : string) : KrogerProductsQuery :=
  {| filter_upc := None;
     filter_term := Some term;
     filter_locationId := locationId;
     filter_limit := "20" |}.

(** [searchKrogerProducts], on a decoded body of the shape its field accesses
    read: [data] absent or an array of product objects.  A body of another
    shape is not covered here (where the source's [map] throws on one, inside
    the [try], the search returns [[]]). *)
Definition searchKrogerProducts (term : string) (lat lon radiusMiles : float) (token : string)
  : M (list Item.t) :=
  locations <- searchKrogerLocations lat lon radiusMiles token ;;
  match locations with
  | [] => ret []
  | loc0 :: _ =>
      let query := krogerSearchQuery term (locationId loc0) in
      fun w =>
        (match bodyOf (kroger_products kroger (krogerCalls w) query token) with
         | Some json =>
             map (fun item =>
                    let priceInfo := prod_items_0_price item ?? emptyPriceInfo in
                    let images := prod_images_0_sizes item ?? [] in
                    Item.mk (orTry (prod_upc item) (prod_productId item) ?? ""%string)
                      (krogerProductName item)
                      (prod_brand item)
                      (krogerPrice priceInfo)
                      (krogerImageUrl images)
                      (Some (locationName loc0))
                      (Some (locationCoordinates loc0))
                      (Some (krogerIsOrganic (prod_attributes item)))
                      None None)
                 (products_data json ?? [])
         | None => []
         end,
         logKroger (GetProducts query token) w)
  end.

(* ----------------------------------------------------------------- *)
(** *** [src/api/walmart.ts] *)

Record WalmartStore : Type := {
  storeId : string;
  storeName : string;
  storeZipCode : option string
}.

Definition getPublisherId : option string :=
  match WALMART_PUBLISHER_ID env with
  | Some id =>
      if truthyString (Some id) && truthyString (Some (trim id)) then Some (trim id) else None
  | None => None
  end.

Definition getApiKey : option string :=
  match WALMART_API_KEY env with
  | Some key =>
      if truthyString (Some key) && truthyString (Some (trim key)) then Some (trim key) else None
  | None => None
  end.

(** [value != null && String(value).length > 0]; [String(n)] of a number is
    never empty. *)
Definition keepParam (kv : string * option QueryValue) : list (string * QueryValue) :=
  match snd kv with
  | Some (QString s) => if (s =? "")%string then [] else [(fst kv, QString s)]
  | Some (QNumber n) => [(fst kv, QNumber n)]
  | None => []
  end.

Definition walmartCall (path : string) (query : list (string * option QueryValue))
  : WalmartCall :=
  {| call_path := path;
     call_publisherId := getPublisherId;
     call_params := flat_map keepParam query;
     call_apiKey := getApiKey |}.

(** [fetchWalmartJSON(path, query)], on the endpoint that [path] names: the
    decoded body, or [null] on a failure. *)
Definition fetchWalmartJSON {A : Type}
  (endpoint : list WalmartCall -> WalmartCall -> Response A)
  (path : string) (query : list (string * option QueryValue)) : M (option A) :=
  fun w =>
    (bodyOf (endpoint (walmartCalls w) (walmartCall path query)),
     logWalmart (walmartCall path query) w).

Definition searchWalmartStores (lat lon radiusMiles : float) : M (list WalmartStore) :=
  data <- fetchWalmartJSON (walmart_stores walmart) "/stores"
            [("lat"%string, Some (QNumber lat));
             ("lon"%string, Some (QNumber lon));
             ("radius"%string, Some (QNumber radiusMiles))] ;;
  match data with
  | None => ret []
  | Some data =>
      ret (map (fun store =>
                  {| storeId :=
                       orTry (orTry (st_no store) (st_storeId store)) (st_id store)
                       ?? ""%string;
                     storeName :=
                       orTry (st_name store) (st_storeType store) ?? "Walmart Store"%string;
                     storeZipCode :=
                       orTry (orTry (st_zip store) (st_zipCode store)) (st_postalCode store) |})
               (orTry (stores_data data) (stores_stores data) ?? []))
  end.

(** The price of a Walmart item: the first of [salePrice], [listPrice],
    [msrp], [price] that is neither null nor [NaN] under [Number], else 0. *)
Definition walmartPrice (itemData : WalmartItemJson) : float :=
  let priceFields :=
    [it_salePrice itemData; it_listPrice itemData; it_msrp itemData; it_price itemData] in
  let numericPrice :=
    find (fun p => negb (is_nan p))
         (map (fun p => if negb (nullish p) then Number p else nan) priceFields) in
  numericPrice ?? 0%float.

Definition walmartName (itemData : WalmartItemJson) : string :=
  orTry (orTry (it_name itemData) (it_title itemData)) (it_shortName itemData)
  ?? "Unknown Product"%string.

Definition walmartImageUrl (itemData : WalmartItemJson) : string :=
  orTry (orTry (it_mediumImage itemData) (it_imageUrl itemData)) (it_thumbnailImage itemData)
  ?? ""%string.

Definition getWalmartProductByUPC (upc : string) (storeId zipCode : option string)
  : M (option Item.t) :=
  let query :=
    ("upc"%string, Some (QString upc))
    :: (if truthyString storeId then [("storeId"%string, option_map QString storeId)]
        else if truthyString zipCode then [("zipCode"%string, option_map QString zipCode)]
        else []) in
  data <- fetchWalmartJSON (walmart_items walmart) "/items" query ;;
  match data with
  | None => ret None
  | Some data =>
      match orTry (hd_error (items_items data ?? [])) (hd_error (items_data data ?? [])) with
      | None => ret None
      | Some itemData =>
          let name := walmartName itemData in
          ret (Some (Item.mk upc name
                       (orTry (it_brandName itemData) (it_brand itemData))
                       (walmartPrice itemData)
                       (walmartImageUrl itemData)
                       (Some (if truthyString storeId
                              then ("Walmart (" ++ (storeId ?? "") ++ ")")%string
                              else "Walmart"%string))
                       None
                       (Some (includes (toLowerCase name) "organic"))
                       None None))
      end
  end.

(** The loop of [getWalmartDeals]. *)
Fixpoint walmartDealsLoop (upc : string) (stores : list WalmartStore)
  (deals : list Recommendation.t) : M (list Recommendation.t) :=
  match stores with
  | [] => ret deals
  | store :: rest =>
      product <- getWalmartProductByUPC upc (Some (storeId store)) (storeZipCode store) ;;
      walmartDealsLoop upc rest
        (match product with
         | Some product =>
             if truthy (Item.price product) then
               deals ++ [Recommendation.mk (Item.id product) (Item.name product)
                           (Item.price product)
                           (Item.store product ?? "Walmart"%string)
                           None]
             else deals
         | None => deals
         end)
  end.

(** The [deals] array of [getWalmartDeals] when the loop ends, before it is
    sorted. *)
Definition walmartOffers (upc : string) (lat lon radiusMiles : float)
  : M (list Recommendation.t) :=
  stores <- searchWalmartStores lat lon radiusMiles ;;
  walmartDealsLoop upc stores [].

Definition getWalmartDeals (upc : string) (lat lon radiusMiles : float)
  : M (list Recommendation.t) :=
  deals <- walmartOffers upc lat lon radiusMiles ;;
  ret (sort byPrice deals).

Definition walmartSearchParams (term : string) : list (string * option QueryValue) :=
  [("query"%string, Some (QString term));
   ("sort"%string, Some (QString "bestseller"));
   ("order"%string, Some (QString "ascending"));
   ("numItems"%string, Some (QString "20"))].

(** [searchWalmartProducts], on a decoded body of the shape its field
    accesses read: [items], else [data], absent or an array of item objects.
    The source maps the body outside any [try], so on a body of another
    shape the call rejects; such bodies are not covered here. *)
Definition searchWalmartProducts (term : string) (lat lon radiusMiles : float)
  : M (list Item.t) :=
  data <- fetchWalmartJSON (walmart_search walmart) "/search" (walmartSearchParams term) ;;
  match data with
  | None => ret []
  | Some data =>
      let items := orTry (items_items data) (items_data data) ?? [] in
      stores <- searchWalmartStores lat lon radiusMiles ;;
      let defaultStore := hd_error stores in
      ret (map (fun item =>
                  let name := walmartName item in
                  Item.mk (orTry (it_upc item) (it_itemId item) ?? ""%string)
                    name
                    (orTry (it_brandName item) (it_brand item))
                    (walmartPrice item)
                    (walmartImageUrl item)
                    (Some (match defaultStore with
                           | Some defaultStore =>
                               ("Walmart (" ++ storeName defaultStore ++ ")")%string
                           | None => "Walmart"%string
                           end))
                    None
                    (Some (includes (toLowerCase name) "organic"))
                    None None)
               items)
  end.

(* ----------------------------------------------------------------- *)
(** *** [src/api/index.ts] *)

(** [!!process.env.WALMART_PUBLISHER_ID]. *)
Definition hasWalmart : bool := truthyString (WALMART_PUBLISHER_ID env).

(** The first of the two concurrent lookups: the Kroger candidate. *)
Definition krogerPromise (upc : string) (latitude longitude radiusMiles : float)
  (krogerToken : option string) : M (option Item.t) :=
  if negb (truthyString krogerToken) then ret None
  else
    let token := krogerToken ?? ""%string in
    krogerLocations <- searchKrogerLocations latitude longitude radiusMiles token ;;
    match krogerLocations with
    | [] => ret None
    | loc :: _ =>
        product <- getKrogerProductByUPC upc (locationId loc) token ;;
        ret (match product with
             | Some product =>
                 Some (withCoordinates (withStore product (Some (locationName loc)))
                         (Some (locationCoordinates loc)))
             | None => None
             end)
    end.

(** The second: the Walmart candidate. *)
Definition walmartPromise (upc : string) (latitude longitude radiusMiles : float)
  : M (option Item.t) :=
  if negb hasWalmart then ret None
  else
    walmartStores <- searchWalmartStores latitude longitude radiusMiles ;;
    match walmartStores with
    | [] => ret None
    | store :: _ =>
        product <- getWalmartProductByUPC upc (Some (storeId store)) (storeZipCode store) ;;
        ret (match product with
             | Some product => Some (withCoordinates product None)
             | None => None
             end)
    end.

(** The [deals] array after the two conditional pushes (lines 82-103). *)
Definition competitorDeals (upc : string) (latitude longitude radiusMiles : float)
  (krogerToken : option string) (krogerItem walmartItem : option Item.t)
  : M (list Recommendation.t) :=
  deals <-
    (match krogerItem with
     | Some _ =>
         if hasWalmart then getWalmartDeals upc latitude longitude radiusMiles else ret []
     | None => ret []
     end) ;;
  match walmartItem with
  | Some _ =>
      if truthyString krogerToken then
        krogerDeals <-
          getKrogerDeals upc latitude longitude radiusMiles (krogerToken ?? ""%string) ;;
        ret (deals ++ krogerDeals)
      else ret deals
  | None => ret deals
  end.

(** [(d) => d.store.toLowerCase() !== scannedStore], where [scannedStore] is
    [item.store?.toLowerCase()]: a string never equals [undefined]. *)
Definition notScannedStore (scannedStore : option string) (d : Recommendation.t) : bool :=
  match scannedStore with
  | Some scannedStore => negb (toLowerCase (Recommendation.store d) =? scannedStore)%string
  | None => true
  end.

(** [fetchProductWithDeals(upc, latitude, longitude, radiusMiles)].  The two
    candidate lookups run under [Promise.all]; each talks to its own
    provider only, so they are run one after the other here: the order makes
    no difference ([candidate_lookups_commute]). *)
Definition fetchProductWithDeals (upc : string) (latitude longitude radiusMiles : float)
  : M (option Item.t * list Recommendation.t) :=
  krogerToken <- getKrogerAccessToken ;;
  krogerItem <- krogerPromise upc latitude longitude radiusMiles krogerToken ;;
  walmartItem <- walmartPromise upc latitude longitude radiusMiles ;;
  match orTry krogerItem walmartItem with
  | Some item =>
      deals <- competitorDeals upc latitude longitude radiusMiles
                 krogerToken krogerItem walmartItem ;;
      let scannedStore := option_map toLowerCase (Item.store item) in
      let filteredDeals := filter (notScannedStore scannedStore) deals in
      ret (Some item, sort byPrice filteredDeals)
  | None => ret (None, [])
  end.

Definition searchProducts (term : string) (latitude longitude radiusMiles : float)
  : M (list Item.t) :=
  krogerToken <- getKrogerAccessToken ;;
  results <-
    (if truthyString krogerToken then
       searchKrogerProducts term latitude longitude radiusMiles (krogerToken ?? ""%string)
     else ret []) ;;
  if hasWalmart then
    walmartResults <- searchWalmartProducts term latitude longitude radiusMiles ;;
    ret (results ++ walmartResults)
  else ret results.

(* ----------------------------------------------------------------- *)
(** *** Specification-side definitions *)

(** The offers in the order the program pushes them: provider by provider
    (Walmart's, then Kroger's, as [competitorDeals] appends them) and, within
    a provider, store by store.  This is [competitorDeals] with each
    provider's list taken before its own sort. *)
Definition pushedOffers (upc : string) (latitude longitude radiusMiles : float)
  (krogerToken : option string) (krogerItem walmartItem : option Item.t)
  : M (list Recommendation.t) :=
  deals <-
    (match krogerItem with
     | Some _ =>
         if hasWalmart then walmartOffers upc latitude longitude radiusMiles else ret []
     | None => ret []
     end) ;;
  match walmartItem with
  | Some _ =>
      if truthyString krogerToken then
        krogerDeals <-
          krogerOffers upc latitude longitude radiusMiles (krogerToken ?? ""%string) ;;
        ret (deals ++ krogerDeals)
      else ret deals
  | None => ret deals
  end.

(** The first three steps of [fetchProductWithDeals]: the token and the two
    candidates. *)
Definition candidates (upc : string) (latitude longitude radiusMiles : float)
  : M (option string * option Item.t * option Item.t) :=
  krogerToken <- getKrogerAccessToken ;;
  krogerItem <- krogerPromise upc latitude longitude radiusMiles krogerToken ;;
  walmartItem <- walmartPromise upc latitude longitude radiusMiles ;;
  ret (krogerToken, krogerItem, walmartItem).

(** The appended offers of one whole call: the candidates are looked up as
    [fetchProductWithDeals] does, then the offers are taken in push order. *)
Definition appendedOffers (upc : string) (latitude longitude radiusMiles : float)
  : M (list Recommendation.t) :=
  c <- candidates upc latitude longitude radiusMiles ;;
  let '(krogerToken, krogerItem, walmartItem) := c in
  pushedOffers upc latitude longitude radiusMiles krogerToken krogerItem walmartItem.

(** "The first present numeric value, 0 if there is none", in the spec's
    words: a field is present when it is neither null nor undefined, numeric
    when [Number] of it is not [NaN]. *)
Fixpoint firstPresentNumeric (fields : list JsValue) : float :=
  match fields with
  | [] => 0
  | v :: rest =>
      if negb (nullish v) && negb (is_nan (Number v)) then Number v
      else firstPresentNumeric rest
  end.

(** Non-decreasing by price, in JavaScript's [<=]. *)
Definition priceLe (a b : Recommendation.t) : Prop :=
  (Recommendation.price a <=? Recommendation.price b)%float = true.

Definition samePrice (p : float) (d : Recommendation.t) : bool :=
  (Recommendation.price d =? p)%float.

(* ================================================================= *)
(** ** JavaScript numbers: facts about binary64 comparison and subtraction *)

Section FloatFacts.

Local Open Scope Z_scope.

Lemma SFcompare_antisym (x y : spec_float) :
SFcompare y x = option_map CompOpp (SFcompare x y).
Proof.
destruct x as [sx | sx | | sx mx ex], y as [sy | sy | | sy my ey]; cbn;
  try reflexivity;
  try (destruct sx; reflexivity); try (destruct sy; reflexivity);
  try (destruct sx, sy; reflexivity).
change (Pos.compare_cont Eq my mx) with (my ?= mx)%positive.
change (Pos.compare_cont Eq mx my) with (mx ?= my)%positive.
rewrite (Z.compare_antisym ex ey), (Pos.compare_antisym mx my).
destruct sx, sy, (ex ?= ey), (mx ?= my)%positive; reflexivity.
Qed.

Lemma SFcompare_refl (x : spec_float) : x <> S754_nan -> SFcompare x x = Some Eq.
Proof.
destruct x as [s | s | | s m e]; cbn; try congruence; intros _.
- destruct s; reflexivity.
- change (Pos.compare_cont Eq m m) with (m ?= m)%positive.
  rewrite Z.compare_refl, Pos.compare_refl. destruct s; reflexivity.
Qed.

Lemma SFleb_trans (x y z : spec_float) :
SFleb x y = true -> SFleb y z = true -> SFleb x z = true.
Proof.
unfold SFleb.
destruct x as [sx | sx | | sx mx ex], y as [sy | sy | | sy my ey],
         z as [sz | sz | | sz mz ez]; cbn;
  repeat match goal with s : bool |- _ => destruct s end; cbn;
  try reflexivity; try discriminate; try (intros; discriminate).
all: change (Pos.compare_cont Eq mx my) with (mx ?= my)%positive;
     change (Pos.compare_cont Eq my mz) with (my ?= mz)%positive;
     change (Pos.compare_cont Eq mx mz) with (mx ?= mz)%positive.
all: destruct (Z.compare_spec ex ey), (Z.compare_spec ey ez), (Z.compare_spec ex ez);
     try lia; try reflexivity; try discriminate; try (intros; discriminate).
all: destruct (Pos.compare_spec mx my), (Pos.compare_spec my mz), (Pos.compare_spec mx mz);
     cbn; try lia; try reflexivity; try discriminate; try (intros; discriminate).
Qed.


Lemma digits2_pos_bounds (m : positive) :
2 ^ (Zpos (digits2_pos m) - 1) <= Zpos m < 2 ^ Zpos (digits2_pos m).
Proof.
induction m as [m IH | m IH |]; cbn [digits2_pos].
- rewrite Pos2Z.inj_succ.
  replace (Z.succ (Zpos (digits2_pos m)) - 1) with (Z.succ (Zpos (digits2_pos m) - 1)) by lia.
  rewrite !Z.pow_succ_r by lia. lia.
- rewrite Pos2Z.inj_succ.
  replace (Z.succ (Zpos (digits2_pos m)) - 1) with (Z.succ (Zpos (digits2_pos m) - 1)) by lia.
  rewrite !Z.pow_succ_r by lia. lia.
- cbn. lia.
Qed.

Lemma shr_1_m (r : shr_record) :
0 <= shr_m r -> shr_m (shr_1 r) = shr_m r / 2.
Proof.
destruct r as [m r s]. cbn [shr_m]. intros Hm.
destruct m as [| p | p]; [reflexivity | | lia].
destruct p as [p | p |]; cbn [shr_1 shr_m].
- rewrite Pos2Z.inj_xI. apply Z.div_unique with (r := 1); lia.
- rewrite Pos2Z.inj_xO. apply Z.div_unique with (r := 0); lia.
- reflexivity.
Qed.

Lemma iter_shr_1_m (p : positive) : forall r : shr_record,
0 <= shr_m r -> shr_m (SpecFloat.iter_pos shr_1 p r) = shr_m r / 2 ^ Zpos p.
Proof.
induction p as [p IH | p IH |]; intros r Hr; cbn [SpecFloat.iter_pos].
- assert (H1 : 0 <= shr_m (shr_1 r)) by (rewrite shr_1_m by assumption; apply Z.div_pos; lia).
  assert (H2 : 0 <= shr_m (SpecFloat.iter_pos shr_1 p (shr_1 r)))
    by (rewrite IH by assumption; apply Z.div_pos; lia).
  rewrite IH, IH, shr_1_m by assumption.
  rewrite !Z.div_div by lia.
  apply (f_equal (Z.div (shr_m r))). rewrite (Pos2Z.inj_xI p).
  replace (2 * Zpos p + 1) with (1 + (Zpos p + Zpos p)) by lia.
  rewrite !Z.pow_add_r by lia. change (2 ^ 1) with 2. lia.
- assert (H2 : 0 <= shr_m (SpecFloat.iter_pos shr_1 p r))
    by (rewrite IH by assumption; apply Z.div_pos; lia).
  rewrite IH, IH by assumption.
  rewrite !Z.div_div by lia.
  apply (f_equal (Z.div (shr_m r))). rewrite (Pos2Z.inj_xO p).
  replace (2 * Zpos p) with (Zpos p + Zpos p) by lia.
  rewrite Z.pow_add_r by lia. reflexivity.
- rewrite shr_1_m by assumption. reflexivity.
Qed.

Section Rounding.
Let prec := 53.
Let emax := 1024.
Let emin := SpecFloat.emin prec emax.

Lemma shr_fexp_pos (m e : Z) (l : location) :
  0 < m -> emin <= e ->
  0 < shr_m (fst (shr_fexp prec emax m e l)) /\ emin <= snd (shr_fexp prec emax m e l).
Proof.
  intros Hm He. unfold shr_fexp, shr.
  destruct m as [| m | m]; try lia. cbn [Zdigits2].
  pose proof (digits2_pos_bounds m) as Hd.
  set (d := Zpos (digits2_pos m)) in *.
  assert (Hrec : shr_m (shr_record_of_loc (Zpos m) l) = Zpos m)
    by (destruct l as [| []]; reflexivity).
  destruct (fexp prec emax (d + e) - e) as [| p | p] eqn:En; cbn [fst snd];
    rewrite ?Hrec; try (split; lia).
  unfold fexp in En. fold emin in En.
  assert (Hp : Zpos p = d - prec) by lia.
  split; [| lia].
  rewrite iter_shr_1_m by (rewrite Hrec; lia). rewrite Hrec.
  apply Z.div_str_pos. split; [apply Z.pow_pos_nonneg; lia |].
  apply Z.le_trans with (2 ^ (d - 1)); [| lia].
  apply Z.pow_le_mono_r; subst prec; lia.
Qed.

Definition signed_nonzero (s : bool) (r : spec_float) : Prop :=
  match r with
  | S754_finite s' _ _ | S754_infinity s' => s' = s
  | _ => False
  end.

Lemma binary_round_aux_signed (sx : bool) (m e : Z) (l : location) :
  0 < m -> emin <= e -> signed_nonzero sx (binary_round_aux prec emax sx m e l).
Proof.
  intros Hm He. unfold binary_round_aux.
  destruct (shr_fexp_pos m e l Hm He) as [H1 H1e].
  destruct (shr_fexp prec emax m e l) as [mrs' e']. cbn [fst snd] in H1, H1e.
  set (m1 := round_nearest_even (shr_m mrs') (loc_of_shr_record mrs')).
  assert (Hm1 : 0 < m1).
  { subst m1. unfold round_nearest_even.
    destruct (loc_of_shr_record mrs') as [| []]; try lia.
    destruct (Z.even (shr_m mrs')); lia. }
  destruct (shr_fexp_pos m1 e' loc_Exact Hm1 H1e) as [H2 _].
  destruct (shr_fexp prec emax m1 e' loc_Exact) as [mrs'' e'']. cbn [fst] in H2.
  destruct (shr_m mrs'') as [| q | q]; try lia.
  destruct (e'' <=? emax - prec); reflexivity.
Qed.

Lemma shl_align_fst (m : positive) (e e' : Z) :
  e' <= e -> Zpos (fst (shl_align m e e')) = Zpos m * 2 ^ (e - e').
Proof.
  intros Hle. unfold shl_align.
  destruct (e' - e) as [| d | d] eqn:Ed; cbn [fst]; try lia.
  - replace (e - e') with 0 by lia. lia.
  - replace (e - e') with (Zpos d) by lia. clear.
    induction d as [| d IH] using Pos.peano_ind.
    + change (2 ^ 1) with 2. cbn [Pos.iter PosDef.Pos.iter]. lia.
    + rewrite Pos.iter_succ, Pos2Z.inj_xO, IH, Pos2Z.inj_succ, Z.pow_succ_r by lia. lia.
Qed.

Lemma shl_align_snd_ge (m : positive) (e e' : Z) :
  emin <= e -> emin <= e' -> emin <= snd (shl_align m e e').
Proof.
  intros. unfold shl_align. destruct (e' - e); cbn [snd]; lia.
Qed.

Lemma binary_round_signed (sx : bool) (m : positive) (e : Z) :
  emin <= e -> signed_nonzero sx (binary_round prec emax sx m e).
Proof.
  intros He. unfold binary_round.
  pose proof (shl_align_snd_ge m e (fexp prec emax (Zpos (digits2_pos m) + e)) He) as Hs.
  destruct (shl_align m e (fexp prec emax (Zpos (digits2_pos m) + e))) as [mz ez].
  cbn [snd] in Hs.
  apply binary_round_aux_signed; [lia |].
  apply Hs. unfold fexp. fold emin. lia.
Qed.

Lemma binary_normalize_signed (M e : Z) :
  M <> 0 -> emin <= e -> signed_nonzero (M <? 0) (binary_normalize prec emax M e false).
Proof.
  intros HM He. destruct M as [| p | p]; [congruence | |]; cbn [binary_normalize];
    apply binary_round_signed; assumption.
Qed.

Lemma canonical_bounds (m : positive) (e : Z) :
  canonical_mantissa prec emax m e = true ->
  emin <= e /\ Zpos m < 2 ^ prec /\ (emin < e -> 2 ^ (prec - 1) <= Zpos m).
Proof.
  unfold canonical_mantissa, fexp. fold emin. intros H%Z.eqb_eq.
  pose proof (digits2_pos_bounds m) as [Hlo Hhi].
  set (d := Zpos (digits2_pos m)) in *.
  split; [lia |]. split.
  - apply Z.lt_le_trans with (2 ^ d); [assumption |].
    apply Z.pow_le_mono_r; lia.
  - intros Hlt. replace d with prec in Hlo by lia. assumption.
Qed.

Lemma aligned_lt (mx : positive) (ex : Z) (my : positive) (ey : Z) :
  canonical_mantissa prec emax mx ex = true ->
  canonical_mantissa prec emax my ey = true ->
  ex < ey -> Zpos mx < Zpos my * 2 ^ (ey - ex).
Proof.
  intros [Hex [Hx _]]%canonical_bounds [_ [_ Hy]]%canonical_bounds Hlt.
  specialize (Hy ltac:(lia)).
  assert (H2 : 2 ^ 1 <= 2 ^ (ey - ex)) by (apply Z.pow_le_mono_r; lia).
  change (2 ^ 1) with 2 in H2.
  assert (Hp : 2 ^ prec = 2 ^ (prec - 1) * 2) by reflexivity.
  nia.
Qed.

Definition aligned (s : bool) (m : positive) (e ez : Z) : Z :=
  cond_Zopp s (Zpos (fst (shl_align m e ez))).

Lemma SFcompare_aligned (sx : bool) (mx : positive) (ex : Z)
                        (sy : bool) (my : positive) (ey : Z) :
  canonical_mantissa prec emax mx ex = true ->
  canonical_mantissa prec emax my ey = true ->
  SFcompare (S754_finite sx mx ex) (S754_finite sy my ey)
  = Some (aligned sx mx ex (Z.min ex ey) ?= aligned sy my ey (Z.min ex ey)).
Proof.
  intros Cx Cy. unfold aligned.
  rewrite !shl_align_fst by lia.
  pose proof (aligned_lt mx ex my ey Cx Cy) as Hxy.
  pose proof (aligned_lt my ey mx ex Cy Cx) as Hyx.
  cbn [SFcompare]. f_equal.
  destruct (Z.compare_spec ex ey) as [E | L | G].
  - subst ey. rewrite Z.min_id, Z.sub_diag, !Z.mul_1_r.
    rewrite Pos.compare_cont_spec.
    destruct sx, sy; cbn [cond_Zopp Z.opp Z.compare];
      destruct (mx ?= my)%positive; reflexivity.
  - rewrite Z.min_l, Z.sub_diag, Z.mul_1_r by lia. specialize (Hxy L).
    destruct sx, sy; cbn [cond_Zopp]; symmetry;
      first [apply Z.compare_lt_iff | apply Z.compare_gt_iff]; lia.
  - rewrite Z.min_r, Z.sub_diag, Z.mul_1_r by lia. specialize (Hyx ltac:(lia)).
    destruct sx, sy; cbn [cond_Zopp]; symmetry;
      first [apply Z.compare_lt_iff | apply Z.compare_gt_iff]; lia.
Qed.

Definition sf_zero := S754_zero false.

Lemma SFltb_zero_signed (s : bool) (r : spec_float) :
  signed_nonzero s r -> SFltb sf_zero r = negb s.
Proof. destruct r as [| s' | | s' m e]; cbn; try tauto; intros <-; destruct s'; reflexivity. Qed.

Lemma SFltb_signed_zero (s : bool) (r : spec_float) :
  signed_nonzero s r -> SFltb r sf_zero = s.
Proof. destruct r as [| s' | | s' m e]; cbn; try tauto; intros <-; destruct s'; reflexivity. Qed.

Lemma canonical_of_valid (s : bool) (m : positive) (e : Z) :
  valid_binary (S754_finite s m e) = true -> canonical_mantissa prec emax m e = true.
Proof. cbn. unfold bounded. now intros [H _]%andb_prop. Qed.

(** Sign of a difference: [x - y] is positive exactly when [y < x], negative
    exactly when [x < y]. *)
Lemma SFsub_sign (x y : spec_float) :
  valid_binary x = true -> valid_binary y = true ->
  SFltb sf_zero (SF64sub x y) = SFltb y x /\ SFltb (SF64sub x y) sf_zero = SFltb x y.
Proof.
  intros Vx Vy.
  destruct x as [sx | sx | | sx mx ex], y as [sy | sy | | sy my ey];
    try solve [repeat match goal with s : bool |- _ => destruct s end; split; reflexivity].
  apply canonical_of_valid in Vx, Vy.
  set (ez := Z.min ex ey).
  set (X := aligned sx mx ex ez). set (Y := aligned sy my ey ez).
  assert (Hyx : SFltb (S754_finite sy my ey) (S754_finite sx mx ex) = (Y <? X)%Z).
  { unfold SFltb. rewrite (SFcompare_aligned sy my ey sx mx ex Vy Vx), (Z.min_comm ey ex).
    reflexivity. }
  assert (Hxy : SFltb (S754_finite sx mx ex) (S754_finite sy my ey) = (X <? Y)%Z).
  { unfold SFltb. rewrite (SFcompare_aligned sx mx ex sy my ey Vx Vy). reflexivity. }
  rewrite Hyx, Hxy.
  change (SF64sub (S754_finite sx mx ex) (S754_finite sy my ey))
    with (binary_normalize prec emax (X - Y) ez false).
  assert (Hez : emin <= ez)
    by (apply canonical_bounds in Vx, Vy; subst ez; lia).
  destruct (Z.eq_dec (X - Y) 0) as [E0 | N0].
  - rewrite E0. cbn [binary_normalize]. replace Y with X by lia.
    rewrite Z.ltb_irrefl. split; reflexivity.
  - pose proof (binary_normalize_signed (X - Y) ez N0 Hez) as Hs.
    rewrite (SFltb_zero_signed _ _ Hs), (SFltb_signed_zero _ _ Hs).
    destruct (Z.ltb_spec Y X), (Z.ltb_spec X Y), (Z.ltb_spec (X - Y) 0);
      try lia; split; reflexivity.
Qed.
End Rounding.

Local Open Scope float_scope.

(** The comparator [(a, b) => a - b] is positive exactly when [b < a], and
    negative exactly when [a < b]: a difference of two doubles never rounds
    to zero or changes sign, and [Infinity - Infinity] is [NaN]. *)
Lemma sub_pos (a b : float) : (0 <? a - b) = (b <? a).
Proof.
  rewrite !FloatAxioms.ltb_spec, FloatAxioms.sub_spec.
  exact (proj1 (SFsub_sign _ _ (Prim2SF_valid a) (Prim2SF_valid b))).
Qed.

Lemma sub_neg (a b : float) : (a - b <? 0) = (a <? b).
Proof.
  rewrite !FloatAxioms.ltb_spec, FloatAxioms.sub_spec.
  exact (proj2 (SFsub_sign _ _ (Prim2SF_valid a) (Prim2SF_valid b))).
Qed.

Lemma is_nan_false_SF (a : float) : is_nan a = false -> Prim2SF a <> S754_nan.
Proof.
  unfold is_nan. rewrite FloatAxioms.eqb_spec. intros H E. rewrite E in H. discriminate H.
Qed.

Lemma SFcompare_None (x y : spec_float) :
  SFcompare x y = None -> x = S754_nan \/ y = S754_nan.
Proof.
  destruct x as [sx | sx | | sx mx ex], y as [sy | sy | | sy my ey]; cbn; auto;
    discriminate.
Qed.

Lemma ltb_leb (a b : float) : (a <? b) = true -> (a <=? b) = true.
Proof.
  rewrite FloatAxioms.ltb_spec, FloatAxioms.leb_spec. unfold SFltb, SFleb.
  destruct (SFcompare (Prim2SF a) (Prim2SF b)) as [[| |] |]; congruence.
Qed.

Lemma ltb_asym (a b : float) : (a <? b) = true -> (b <? a) = false.
Proof.
  rewrite !FloatAxioms.ltb_spec. unfold SFltb. rewrite (SFcompare_antisym (Prim2SF a) (Prim2SF b)).
  destruct (SFcompare (Prim2SF a) (Prim2SF b)) as [[| |] |]; cbn; congruence.
Qed.

Lemma not_ltb_leb (a b : float) :
  is_nan a = false -> is_nan b = false -> (b <? a) = false -> (a <=? b) = true.
Proof.
  intros Ha%is_nan_false_SF Hb%is_nan_false_SF.
  rewrite FloatAxioms.ltb_spec, FloatAxioms.leb_spec. unfold SFltb, SFleb.
  rewrite (SFcompare_antisym (Prim2SF a) (Prim2SF b)).
  destruct (SFcompare (Prim2SF a) (Prim2SF b)) as [[| |] |] eqn:E; cbn; try congruence.
  apply SFcompare_None in E. tauto.
Qed.

Lemma leb_trans (a b c : float) :
  (a <=? b) = true -> (b <=? c) = true -> (a <=? c) = true.
Proof. rewrite !FloatAxioms.leb_spec. apply SFleb_trans. Qed.

Lemma leb_not_ltb (a b : float) : (a <=? b) = true -> (b <? a) = false.
Proof.
  rewrite FloatAxioms.ltb_spec, FloatAxioms.leb_spec. unfold SFltb, SFleb.
  rewrite (SFcompare_antisym (Prim2SF a) (Prim2SF b)).
  destruct (SFcompare (Prim2SF a) (Prim2SF b)) as [[| |] |]; cbn; congruence.
Qed.

Lemma eqb_leb (a b : float) : (a =? b) = true -> (a <=? b) = true /\ (b <=? a) = true.
Proof.
  rewrite FloatAxioms.eqb_spec, !FloatAxioms.leb_spec. unfold SFeqb, SFleb.
  rewrite (SFcompare_antisym (Prim2SF a) (Prim2SF b)).
  destruct (SFcompare (Prim2SF a) (Prim2SF b)) as [[| |] |]; cbn; split; congruence.
Qed.

(** Two numbers equal to a third are not strictly ordered. *)
Lemma eqb_not_ltb (x y p : float) :
  (x =? p) = true -> (y =? p) = true -> (y <? x) = false.
Proof.
  intros [Hxp _]%eqb_leb [_ Hpy]%eqb_leb.
  apply leb_not_ltb. exact (leb_trans _ _ _ Hxp Hpy).
Qed.

Lemma leb_antisym (a b : float) :
  (a <=? b) = true -> (b <=? a) = true -> (b =? a) = true.
Proof.
  rewrite FloatAxioms.eqb_spec, !FloatAxioms.leb_spec. unfold SFeqb, SFleb.
  rewrite (SFcompare_antisym (Prim2SF a) (Prim2SF b)).
  destruct (SFcompare (Prim2SF a) (Prim2SF b)) as [[| |] |]; cbn; congruence.
Qed.

Lemma eqb_refl_number (a : float) : is_nan a = false -> (a =? a) = true.
Proof. unfold is_nan. apply negb_false_iff. Qed.

Lemma truthy_not_nan (n : float) : truthy n = true -> is_nan n = false.
Proof.
  unfold truthy. intros H%negb_true_iff. apply orb_false_iff in H. tauto.
Qed.

End FloatFacts.

(* ================================================================= *)
(** ** [Array.prototype.sort]: membership, stability, order *)

Lemma insertBy_Forall {A : Type} (P : A -> Prop) (compareFn : A -> A -> float)
  (x : A) (l : list A) :
  P x -> Forall P l -> Forall P (insertBy compareFn x l).
Proof.
  intros Hx Hl. induction Hl as [| y l' Hy Hl' IH]; cbn.
  - constructor; [assumption | constructor].
  - destruct (0 <? compareFn x y)%float; repeat (constructor; try assumption).
Qed.

Lemma sort_Forall {A : Type} (P : A -> Prop) (compareFn : A -> A -> float) (l : list A) :
  Forall P l -> Forall P (sort compareFn l).
Proof.
  induction 1 as [| x l' Hx Hl' IH]; cbn; [constructor |].
  apply insertBy_Forall; assumption.
Qed.

(** Elements that the comparator never orders strictly keep their relative
    order: sorting commutes with selecting them. *)
Lemma filter_insertBy {A : Type} (f : A -> bool) (compareFn : A -> A -> float)
  (x : A) (l : list A) :
  (forall y, f x = true -> f y = true -> (0 <? compareFn x y)%float = false) ->
  filter f (insertBy compareFn x l) = filter f (x :: l).
Proof.
  intros Hf. induction l as [| y l' IH]; [reflexivity |].
  cbn [insertBy]. destruct (0 <? compareFn x y)%float eqn:E; [| reflexivity].
  cbn [filter] in *. rewrite IH.
  destruct (f x) eqn:Fx, (f y) eqn:Fy; try reflexivity.
  rewrite (Hf y eq_refl Fy) in E. discriminate E.
Qed.

Lemma filter_sort {A : Type} (f : A -> bool) (compareFn : A -> A -> float) (l : list A) :
  (forall x y, f x = true -> f y = true -> (0 <? compareFn x y)%float = false) ->
  filter f (sort compareFn l) = filter f l.
Proof.
  intros Hf. induction l as [| x l' IH]; [reflexivity |].
  cbn [sort]. rewrite filter_insertBy by (apply Hf).
  cbn [filter]. rewrite IH. reflexivity.
Qed.

Lemma filter_comm {A : Type} (f g : A -> bool) (l : list A) :
  filter f (filter g l) = filter g (filter f l).
Proof.
  induction l as [| x l' IH]; [reflexivity |].
  cbn [filter]. destruct (f x) eqn:Fx, (g x) eqn:Gx; cbn [filter];
    rewrite ?Fx, ?Gx, IH; reflexivity.
Qed.

Lemma byPrice_pos (a b : Recommendation.t) :
  (0 <? byPrice a b)%float = (Recommendation.price b <? Recommendation.price a)%float.
Proof. apply sub_pos. Qed.

(** The comparator of the source is consistent on prices that are numbers:
    it is negative, zero or positive as [a.price] is below, equal to or above
    [b.price]. *)
Lemma byPrice_neg (a b : Recommendation.t) :
  (byPrice a b <? 0)%float = (Recommendation.price a <? Recommendation.price b)%float.
Proof. apply sub_neg. Qed.

Definition priceIsNumber (d : Recommendation.t) : Prop :=
  is_nan (Recommendation.price d) = false.

Lemma insertBy_sorted (x : Recommendation.t) (l : list Recommendation.t) :
  priceIsNumber x -> Forall priceIsNumber l ->
  StronglySorted priceLe l -> StronglySorted priceLe (insertBy byPrice x l).
Proof.
  intros Hx Hl Hs. induction Hs as [| y l' Hs' IH Hy]; cbn [insertBy].
  - repeat constructor.
  - inversion Hl as [| ? ? Hny Hl']; subst.
    rewrite byPrice_pos.
    destruct (Recommendation.price y <? Recommendation.price x)%float eqn:E.
    + constructor; [apply IH; assumption |].
      apply insertBy_Forall; [| assumption].
      apply ltb_leb. exact E.
    + assert (Hxy : priceLe x y) by (apply not_ltb_leb; assumption).
      constructor; [constructor; assumption |].
      constructor; [assumption |].
      eapply Forall_impl; [| exact Hy].
      intros z Hyz. exact (leb_trans _ _ _ Hxy Hyz).
Qed.

Lemma sort_sorted (l : list Recommendation.t) :
  Forall priceIsNumber l -> StronglySorted priceLe (sort byPrice l).
Proof.
  induction 1 as [| x l' Hx Hl' IH]; cbn [sort]; [constructor |].
  apply insertBy_sorted; [assumption | apply sort_Forall; assumption | assumption].
Qed.

Lemma sort_stable (p : float) (l : list Recommendation.t) :
  filter (samePrice p) (sort byPrice l) = filter (samePrice p) l.
Proof.
  apply filter_sort. intros x y Hx Hy. rewrite byPrice_pos.
  exact (eqb_not_ltb _ _ p Hx Hy).
Qed.

Lemma StronglySorted_nth {A : Type} (R : A -> A -> Prop) (l : list A) :
  StronglySorted R l ->
  forall i j a b, (i < j)%nat -> nth_error l i = Some a -> nth_error l j = Some b -> R a b.
Proof.
  induction 1 as [| x l' Hs IH Hx]; intros i j a b Hij Ha Hb.
  - destruct i; discriminate Ha.
  - destruct j as [| j]; [lia |]. cbn in Hb.
    destruct i as [| i]; cbn in Ha.
    + injection Ha as <-. rewrite Forall_forall in Hx.
      apply Hx. eapply nth_error_In. exact Hb.
    + apply (IH i j); [lia | assumption | assumption].
Qed.

(** On prices that are numbers there is one stable sort: two lists ordered
    by price that agree, price by price, on the order of their elements are
    the same list. *)
Lemma sorted_stable_unique (l1 : list Recommendation.t) :
  forall l2 : list Recommendation.t,
    Forall priceIsNumber l1 -> Forall priceIsNumber l2 ->
    StronglySorted priceLe l1 -> StronglySorted priceLe l2 ->
    (forall p, filter (samePrice p) l1 = filter (samePrice p) l2) ->
    l1 = l2.
Proof.
  assert (Hhead : forall a t l,
             priceIsNumber a -> StronglySorted priceLe l ->
             filter (samePrice (Recommendation.price a)) (a :: t)
             = filter (samePrice (Recommendation.price a)) l ->
             exists b t', l = b :: t' /\ priceLe b a).
  { intros a t l Ha Hs E. cbn [filter] in E. unfold samePrice at 1 in E.
    rewrite (eqb_refl_number _ Ha) in E.
    assert (Hin : In a (filter (samePrice (Recommendation.price a)) l))
      by (rewrite <- E; left; reflexivity).
    apply filter_In in Hin. destruct Hin as [Hin _].
    destruct l as [| b t']; [contradiction |].
    exists b, t'. split; [reflexivity |].
    destruct Hin as [-> | Hin].
    - apply not_ltb_leb; try assumption. apply leb_not_ltb.
      apply eqb_leb. apply eqb_refl_number. assumption.
    - inversion Hs as [| ? ? _ Hb]; subst. rewrite Forall_forall in Hb. apply Hb, Hin. }
  induction l1 as [| a t1 IH]; intros l2 H1 H2 S1 S2 E.
  - destruct l2 as [| b t2]; [reflexivity |].
    inversion H2 as [| ? ? Hb _]; subst.
    specialize (E (Recommendation.price b)). cbn [filter] in E.
    unfold samePrice at 1 in E. rewrite (eqb_refl_number _ Hb) in E. discriminate E.
  - inversion H1 as [| ? ? Ha H1']; subst.
    destruct (Hhead a t1 l2 Ha S2 (E _)) as (b & t2 & -> & Hba).
    inversion H2 as [| ? ? Hb H2']; subst.
    destruct (Hhead b t2 (a :: t1) Hb S1 (eq_sym (E _))) as (a' & t1' & Ea & Hab).
    injection Ea as <- <-.
    assert (Eab : a = b).
    { pose proof (E (Recommendation.price a)) as Ep. cbn [filter] in Ep.
      unfold samePrice in Ep.
      rewrite (eqb_refl_number _ Ha), (leb_antisym _ _ Hab Hba) in Ep.
      injection Ep as Ep _. exact Ep. }
    subst b. f_equal.
    inversion S1; inversion S2; subst.
    apply IH; try assumption.
    intros p. specialize (E p). cbn [filter] in E.
    destruct (samePrice p a); [injection E as E |]; exact E.
Qed.

(** So [sort byPrice] returns what every stable sort by price returns. *)
Lemma sort_is_the_stable_sort (l l' : list Recommendation.t) :
  Forall priceIsNumber l -> Forall priceIsNumber l' ->
  StronglySorted priceLe l' ->
  (forall p, filter (samePrice p) l' = filter (samePrice p) l) ->
  l' = sort byPrice l.
Proof.
  intros Hl Hl' Hs Hf.
  apply sorted_stable_unique; try assumption.
  - apply sort_Forall. assumption.
  - apply sort_sorted. assumption.
  - intros p. rewrite sort_stable. apply Hf.
Qed.

(* ================================================================= *)
(** ** The deal evaluator *)

Lemma margin_plus_one : (1 + margin)%float = 1.05%float.
Proof. reflexivity. Qed.

Lemma slice_0 {A : Type} (n : nat) (l : list A) : slice 0 n l = firstn n l.
Proof. unfold slice. rewrite Nat.sub_0_r. reflexivity. Qed.

(** C1. On a non-empty offer list (whose first element the caller keeps the
    cheapest), with margin = 0.05: when [scanned.price <= offers[0].price] the
    verdict is DEAL and the recommendations are the first 2 offers; else when
    [scanned.price <= offers[0].price * 1.05] the verdict is SO-SO and the
    recommendations are exactly the offers [d] with
    [|d.price - scanned.price| / scanned.price <= 0.05]; else the verdict is
    NO DEAL and the recommendations are the first 3 offers.  It holds for
    every non-empty list, ordered or not. *)
Theorem evaluateDeal_classifies (scanned : Item.t) (cheapest : Recommendation.t)
  (rest : list Recommendation.t) :
  let offers := cheapest :: rest in
  let result := evaluateDeal scanned offers in
  if (Item.price scanned <=? Recommendation.price cheapest)%float then
    Item.tag result = Some DEAL /\
    Item.recommendations result = Some (firstn 2 offers)
  else if (Item.price scanned <=? Recommendation.price cheapest * 1.05)%float then
    Item.tag result = Some SO_SO /\
    Item.recommendations result =
      Some (filter
              (fun d =>
                 (abs (Recommendation.price d - Item.price scanned) / Item.price scanned
                  <=? 0.05)%float)
              offers)
  else
    Item.tag result = Some NO_DEAL /\
    Item.recommendations result = Some (firstn 3 offers).
Proof.
  intros offers result. subst result offers. unfold evaluateDeal.
  rewrite margin_plus_one, !slice_0.
  destruct (Item.price scanned <=? Recommendation.price cheapest)%float.
  - split; reflexivity.
  - destruct (Item.price scanned <=? Recommendation.price cheapest * 1.05)%float;
      split; reflexivity.
Qed.

(** The evaluator changes nothing but the verdict and the recommendations. *)
Lemma evaluateDeal_frame (scanned : Item.t) (deals : list Recommendation.t) :
  let result := evaluateDeal scanned deals in
  Item.id result = Item.id scanned /\ Item.name result = Item.name scanned /\
  Item.brand result = Item.brand scanned /\ Item.price result = Item.price scanned /\
  Item.image result = Item.image scanned /\ Item.store result = Item.store scanned /\
  Item.coordinates result = Item.coordinates scanned /\
  Item.isOrganic result = Item.isOrganic scanned.
Proof.
  unfold evaluateDeal.
  destruct deals as [| cheapest rest]; [cbn; tauto |].
  destruct (Item.price scanned <=? Recommendation.price cheapest)%float; [cbn; tauto |].
  destruct (Item.price scanned <=? Recommendation.price cheapest * (1 + margin))%float;
    cbn; tauto.
Qed.

(** C5. With an empty offer list, a verdict the item already carries is
    preserved unchanged, an item with no verdict gets DEAL, and in both
    cases no recommendations are attached. *)
Theorem evaluateDeal_no_offers (scanned : Item.t) :
  let result := evaluateDeal scanned [] in
  (forall verdict, Item.tag scanned = Some verdict -> Item.tag result = Some verdict) /\
  (Item.tag scanned = None -> Item.tag result = Some DEAL) /\
  Item.recommendations result = None.
Proof.
  cbn. repeat split.
  - intros verdict ->. reflexivity.
  - intros ->. reflexivity.
Qed.

(** C9. [evaluateDeal] is a function of its two arguments (two invocations on
    the same pair are the same value, verdict and recommendations included),
    and it is idempotent: evaluating the evaluated item against the same
    offers changes nothing. *)
Theorem evaluateDeal_idempotent (scanned : Item.t) (deals : list Recommendation.t) :
  evaluateDeal (evaluateDeal scanned deals) deals = evaluateDeal scanned deals.
Proof.
  unfold evaluateDeal.
  destruct deals as [| cheapest rest].
  - cbn. destruct (Item.tag scanned); reflexivity.
  - destruct (Item.price scanned <=? Recommendation.price cheapest)%float eqn:E1.
    + cbn -[margin]. rewrite E1. reflexivity.
    + destruct (Item.price scanned <=? Recommendation.price cheapest * (1 + margin))%float
        eqn:E2; cbn -[margin]; rewrite E1, E2; reflexivity.
Qed.

(* ================================================================= *)
(** ** Price extraction *)

Definition numericOrAbsent (v : JsValue) : Prop :=
  nullish v = true \/ is_nan (Number v) = false.

(** Walmart's price is the first present numeric value among [salePrice],
    [listPrice], [msrp], [price], and 0 when there is none. *)
Lemma walmartPrice_firstPresentNumeric (itemData : WalmartItemJson) :
  walmartPrice itemData =
  firstPresentNumeric
    [it_salePrice itemData; it_listPrice itemData; it_msrp itemData; it_price itemData].
Proof.
  unfold walmartPrice. cbn [map find firstPresentNumeric].
  assert (Hnan : is_nan nan = true) by reflexivity.
  destruct (it_salePrice itemData) as [| | n1 |], (it_listPrice itemData) as [| | n2 |],
           (it_msrp itemData) as [| | n3 |], (it_price itemData) as [| | n4 |];
    cbn [nullish negb Number andb orElse]; rewrite ?Hnan; cbn [negb andb orElse];
    repeat match goal with
           | |- context [is_nan ?n] => destruct (is_nan n); cbn [negb andb orElse]
           end; reflexivity.
Qed.

(** Kroger's price is the first present numeric value among [promo],
    [regular], and 0 when there is none, as long as the present fields are
    numbers. *)
Lemma krogerPrice_firstPresentNumeric (priceInfo : KrogerPriceJson) :
  numericOrAbsent (promo priceInfo) -> numericOrAbsent (regular priceInfo) ->
  krogerPrice priceInfo = firstPresentNumeric [promo priceInfo; regular priceInfo].
Proof.
  unfold krogerPrice, numericOrAbsent, coalesce. cbn [firstPresentNumeric].
  destruct (promo priceInfo) as [| | n1 |], (regular priceInfo) as [| | n2 |];
    cbn [nullish negb Number andb];
    intros [H1 | H1] [H2 | H2]; try discriminate; rewrite ?H1, ?H2; reflexivity.
Qed.

(** The two cases the spec spells out: [promo = null, regular = 3.29]
    resolves to 3.29, and a record with no price field to 0. *)
Lemma krogerPrice_examples :
  krogerPrice {| promo := JNull; regular := JNumber 3.29 |} = 3.29%float /\
  krogerPrice emptyPriceInfo = 0%float.
Proof. split; reflexivity. Qed.

(** A present field that is not a number stops Kroger's search: the price is
    [NaN], where the first present numeric value is 3.29. *)
Lemma krogerPrice_not_numeric :
  let priceInfo := {| promo := JNotNumeric; regular := JNumber 3.29 |} in
  is_nan (krogerPrice priceInfo) = true /\
  firstPresentNumeric [promo priceInfo; regular priceInfo] = 3.29%float.
Proof. split; reflexivity. Qed.

(* ================================================================= *)
(** ** The deal lists of the adapters *)

Lemma run_bind {A B : Type} (m : M A) (k : A -> M B) (w : World) :
  bind m k w = k (fst (m w)) (snd (m w)).
Proof. unfold bind. destruct (m w); reflexivity. Qed.

Definition truthyPrice (d : Recommendation.t) : Prop :=
  truthy (Recommendation.price d) = true.

Lemma krogerDealsLoop_truthy (upc token : string) (locations : list KrogerLocation) :
  forall (deals : list Recommendation.t) (w : World),
    Forall truthyPrice deals ->
    Forall truthyPrice (fst (krogerDealsLoop upc token locations deals w)).
Proof.
  induction locations as [| loc rest IH]; intros deals w Hd; [exact Hd |].
  cbn [krogerDealsLoop]. unfold bind at 1.
  destruct (getKrogerProductByUPC upc (locationId loc) token w) as [product w'].
  apply IH. destruct product as [product |]; [| exact Hd].
  destruct (truthy (Item.price product)) eqn:E; [| exact Hd].
  apply Forall_app. split; [exact Hd |]. constructor; [exact E | constructor].
Qed.

Lemma walmartDealsLoop_truthy (upc : string) (stores : list WalmartStore) :
  forall (deals : list Recommendation.t) (w : World),
    Forall truthyPrice deals ->
    Forall truthyPrice (fst (walmartDealsLoop upc stores deals w)).
Proof.
  induction stores as [| store rest IH]; intros deals w Hd; [exact Hd |].
  cbn [walmartDealsLoop]. unfold bind at 1.
  destruct (getWalmartProductByUPC upc (Some (storeId store)) (storeZipCode store) w)
    as [product w'].
  apply IH. destruct product as [product |]; [| exact Hd].
  destruct (truthy (Item.price product)) eqn:E; [| exact Hd].
  apply Forall_app. split; [exact Hd |]. constructor; [exact E | constructor].
Qed.

Lemma krogerOffers_truthy (upc : string) (lat lon radiusMiles : float) (token : string)
  (w : World) :
  Forall truthyPrice (fst (krogerOffers upc lat lon radiusMiles token w)).
Proof.
  unfold krogerOffers, bind.
  destruct (searchKrogerLocations lat lon radiusMiles token w) as [locations w'].
  apply krogerDealsLoop_truthy. constructor.
Qed.

Lemma walmartOffers_truthy (upc : string) (lat lon radiusMiles : float) (w : World) :
  Forall truthyPrice (fst (walmartOffers upc lat lon radiusMiles w)).
Proof.
  unfold walmartOffers, bind.
  destruct (searchWalmartStores lat lon radiusMiles w) as [stores w'].
  apply walmartDealsLoop_truthy. constructor.
Qed.

Lemma getKrogerDeals_sorts (upc : string) (lat lon radiusMiles : float) (token : string)
  (w : World) :
  getKrogerDeals upc lat lon radiusMiles token w =
  (sort byPrice (fst (krogerOffers upc lat lon radiusMiles token w)),
   snd (krogerOffers upc lat lon radiusMiles token w)).
Proof.
  unfold getKrogerDeals, bind, ret.
  destruct (krogerOffers upc lat lon radiusMiles token w); reflexivity.
Qed.

Lemma getWalmartDeals_sorts (upc : string) (lat lon radiusMiles : float) (w : World) :
  getWalmartDeals upc lat lon radiusMiles w =
  (sort byPrice (fst (walmartOffers upc lat lon radiusMiles w)),
   snd (walmartOffers upc lat lon radiusMiles w)).
Proof.
  unfold getWalmartDeals, bind, ret.
  destruct (walmartOffers upc lat lon radiusMiles w); reflexivity.
Qed.

Lemma truthy_nonzero_number (n : float) :
  truthy n = true -> is_zero n = false /\ is_nan n = false.
Proof.
  unfold truthy. intros H%negb_true_iff. apply orb_false_iff in H. exact H.
Qed.

(** C10. Every Recommendation that [getKrogerDeals] or [getWalmartDeals]
    returns has a price that is neither zero nor [NaN]: in the loop, a store
    whose lookup returns no product, or a product whose price is 0 or not a
    number, is passed over without a trace, although the lookup itself turns
    a missing price into 0. *)
Theorem deals_have_nonzero_prices :
  (forall upc lat lon radiusMiles token w,
     Forall (fun d => is_zero (Recommendation.price d) = false /\
                      is_nan (Recommendation.price d) = false)
            (fst (getKrogerDeals upc lat lon radiusMiles token w))) /\
  (forall upc lat lon radiusMiles w,
     Forall (fun d => is_zero (Recommendation.price d) = false /\
                      is_nan (Recommendation.price d) = false)
            (fst (getWalmartDeals upc lat lon radiusMiles w))) /\
  (forall upc token loc rest deals w,
     match getKrogerProductByUPC upc (locationId loc) token w with
     | (Some product, w') =>
         truthy (Item.price product) = false ->
         krogerDealsLoop upc token (loc :: rest) deals w
         = krogerDealsLoop upc token rest deals w'
     | (None, w') =>
         krogerDealsLoop upc token (loc :: rest) deals w
         = krogerDealsLoop upc token rest deals w'
     end) /\
  (forall upc store rest deals w,
     match getWalmartProductByUPC upc (Some (storeId store)) (storeZipCode store) w with
     | (Some product, w') =>
         truthy (Item.price product) = false ->
         walmartDealsLoop upc (store :: rest) deals w
         = walmartDealsLoop upc rest deals w'
     | (None, w') =>
         walmartDealsLoop upc (store :: rest) deals w
         = walmartDealsLoop upc rest deals w'
     end) /\
  krogerPrice emptyPriceInfo = 0%float /\
  (forall itemData,
     nullish (it_salePrice itemData) = true -> nullish (it_listPrice itemData) = true ->
     nullish (it_msrp itemData) = true -> nullish (it_price itemData) = true ->
     walmartPrice itemData = 0%float).
Proof.
  repeat split.
  - intros. rewrite getKrogerDeals_sorts. cbn [fst].
    apply sort_Forall. eapply Forall_impl; [| apply krogerOffers_truthy].
    intros d. apply truthy_nonzero_number.
  - intros. rewrite getWalmartDeals_sorts. cbn [fst].
    apply sort_Forall. eapply Forall_impl; [| apply walmartOffers_truthy].
    intros d. apply truthy_nonzero_number.
  - intros. cbn [krogerDealsLoop]. rewrite run_bind.
    destruct (getKrogerProductByUPC upc (locationId loc) token w) as [[product |] w'];
      cbn [fst snd]; [intros -> |]; reflexivity.
  - intros. cbn [walmartDealsLoop]. rewrite run_bind.
    destruct (getWalmartProductByUPC upc (Some (storeId store)) (storeZipCode store) w)
      as [[product |] w']; cbn [fst snd]; [intros -> |]; reflexivity.
  - intros itemData H1 H2 H3 H4. rewrite walmartPrice_firstPresentNumeric.
    cbn [firstPresentNumeric]. rewrite H1, H2, H3, H4. reflexivity.
Qed.

(* ================================================================= *)
(** ** Free-text search *)

(** Neither search truncates.  Each sends the provider a limit of 20
    ([filter.limit] for Kroger, [numItems] for Walmart) and, on a decoded
    body of the shape it reads, returns one item for each element of the
    array the provider answers with, however many those are; it returns the
    empty sequence when the request fails in transport or [res.json()]
    throws (and, for Kroger, when no store is located).  Bodies of another
    shape are outside this statement, as they are outside the two
    definitions. *)
Lemma search_results_follow_response :
  (forall term lat lon radiusMiles token w,
     let '(locations, w1) := searchKrogerLocations lat lon radiusMiles token w in
     let items := fst (searchKrogerProducts term lat lon radiusMiles token w) in
     match locations with
     | [] => items = []
     | loc0 :: _ =>
         filter_limit (krogerSearchQuery term (locationId loc0)) = "20"%string /\
         match kroger_products kroger (krogerCalls w1)
                 (krogerSearchQuery term (locationId loc0)) token with
         | Ok json => List.length items = List.length (products_data json ?? [])
         | NetworkError | HttpError _ | DecodeError => items = []
         end
     end) /\
  (forall term lat lon radiusMiles w,
     let items := fst (searchWalmartProducts term lat lon radiusMiles w) in
     let call := walmartCall "/search" (walmartSearchParams term) in
     In ("numItems"%string, QString "20") (call_params call) /\
     match walmart_search walmart (walmartCalls w) call with
     | Ok json => List.length items = List.length (orTry (items_items json) (items_data json) ?? [])
     | NetworkError | HttpError _ | DecodeError => items = []
     end).
Proof.
  split.
  - intros term lat lon radiusMiles token w.
    unfold searchKrogerProducts. rewrite run_bind.
    destruct (searchKrogerLocations lat lon radiusMiles token w) as [locations w1].
    cbn [fst snd]. destruct locations as [| loc0 rest]; [reflexivity |].
    split; [reflexivity |]. cbn [fst].
    destruct (kroger_products kroger (krogerCalls w1)
                (krogerSearchQuery term (locationId loc0)) token);
      cbn [bodyOf]; try reflexivity.
    apply length_map.
  - intros term lat lon radiusMiles w. cbv zeta.
    split; [cbn; apply in_or_app; right; cbn; auto |].
    unfold searchWalmartProducts. rewrite run_bind.
    unfold fetchWalmartJSON. cbn [fst snd].
    destruct (walmart_search walmart (walmartCalls w)
                (walmartCall "/search" (walmartSearchParams term)));
      cbn [bodyOf]; try reflexivity.
    unfold bind, ret. destruct (searchWalmartStores _ _ _ _) as [stores w2].
    cbn [fst]. apply length_map.
Qed.

(* ================================================================= *)
(** ** The aggregator *)

Lemma fetchProductWithDeals_run (upc : string) (latitude longitude radiusMiles : float)
  (w : World) :
  fetchProductWithDeals upc latitude longitude radiusMiles w =
  let '(krogerToken, krogerItem, walmartItem, w1) :=
    candidates upc latitude longitude radiusMiles w in
  match orTry krogerItem walmartItem with
  | Some item =>
      let '(deals, w2) :=
        competitorDeals upc latitude longitude radiusMiles
          krogerToken krogerItem walmartItem w1 in
      ((Some item,
        sort byPrice
          (filter (notScannedStore (option_map toLowerCase (Item.store item))) deals)),
       w2)
  | None => ((None, []), w1)
  end.
Proof.
  unfold fetchProductWithDeals, candidates, bind, ret.
  destruct (getKrogerAccessToken w) as [krogerToken w0].
  destruct (krogerPromise upc latitude longitude radiusMiles krogerToken w0)
    as [krogerItem w1].
  destruct (walmartPromise upc latitude longitude radiusMiles w1) as [walmartItem w2].
  destruct (orTry krogerItem walmartItem); reflexivity.
Qed.

(** What [competitorDeals] returns is the pushed offers with each provider's
    share sorted, and the two runs make the same requests. *)
Lemma competitorDeals_pushed (upc : string) (latitude longitude radiusMiles : float)
  (krogerToken : option string) (krogerItem walmartItem : option Item.t) (w : World) :
  exists fromWalmart fromKroger : list Recommendation.t,
    fst (pushedOffers upc latitude longitude radiusMiles
           krogerToken krogerItem walmartItem w) = fromWalmart ++ fromKroger /\
    fst (competitorDeals upc latitude longitude radiusMiles
           krogerToken krogerItem walmartItem w)
    = sort byPrice fromWalmart ++ sort byPrice fromKroger /\
    Forall truthyPrice fromWalmart /\ Forall truthyPrice fromKroger.
Proof.
  unfold pushedOffers, competitorDeals. rewrite !run_bind.
  set (viaWalmart := match krogerItem with
                     | Some _ =>
                         if hasWalmart
                         then getWalmartDeals upc latitude longitude radiusMiles
                         else ret []
                     | None => ret []
                     end).
  set (rawWalmart := match krogerItem with
                     | Some _ =>
                         if hasWalmart
                         then walmartOffers upc latitude longitude radiusMiles
                         else ret []
                     | None => ret []
                     end).
  assert (HW : viaWalmart w = (sort byPrice (fst (rawWalmart w)), snd (rawWalmart w))
               /\ Forall truthyPrice (fst (rawWalmart w))).
  { subst viaWalmart rawWalmart.
    destruct krogerItem; [destruct hasWalmart |];
      try (split; [reflexivity | constructor]).
    split; [apply getWalmartDeals_sorts | apply walmartOffers_truthy]. }
  destruct HW as [HW HWt]. rewrite HW. cbn [fst snd].
  exists (fst (rawWalmart w)).
  destruct walmartItem; [destruct (truthyString krogerToken) |].
  - exists (fst (krogerOffers upc latitude longitude radiusMiles
                   (krogerToken ?? ""%string) (snd (rawWalmart w)))).
    rewrite !run_bind, getKrogerDeals_sorts. cbn [ret fst snd].
    repeat split; [assumption | apply krogerOffers_truthy].
  - exists []. cbn [ret fst sort]. rewrite !app_nil_r.
    repeat split; [assumption | constructor].
  - exists []. cbn [ret fst sort]. rewrite !app_nil_r.
    repeat split; [assumption | constructor].
Qed.

Lemma truthyPrice_isNumber (d : Recommendation.t) : truthyPrice d -> priceIsNumber d.
Proof. apply truthy_not_nan. Qed.

(** C3. When the call returns an item, the returned deals are non-decreasing
    by price, [deals[i].price <= deals[j].price] for all [i < j], and offers
    of equal price stand in the order in which they were appended: provider
    by provider, and store by store within a provider. *)
Theorem deals_sorted_by_price_stably (upc : string) (latitude longitude radiusMiles : float)
  (w w' : World) (item : Item.t) (deals : list Recommendation.t) :
  fetchProductWithDeals upc latitude longitude radiusMiles w = ((Some item, deals), w') ->
  (forall i j a b,
     (i < j)%nat -> nth_error deals i = Some a -> nth_error deals j = Some b ->
     (Recommendation.price a <=? Recommendation.price b)%float = true) /\
  (forall p,
     filter (samePrice p) deals =
     filter (samePrice p)
       (filter (notScannedStore (option_map toLowerCase (Item.store item)))
          (fst (appendedOffers upc latitude longitude radiusMiles w)))).
Proof.
  rewrite fetchProductWithDeals_run. unfold appendedOffers. rewrite run_bind.
  destruct (candidates upc latitude longitude radiusMiles w)
    as [[[krogerToken krogerItem] walmartItem] w1].
  cbn [fst snd].
  destruct (orTry krogerItem walmartItem) as [item0 |]; [| discriminate].
  destruct (competitorDeals_pushed upc latitude longitude radiusMiles
              krogerToken krogerItem walmartItem w1)
    as (fromWalmart & fromKroger & Hpushed & Hdeals & HtW & HtK).
  destruct (competitorDeals upc latitude longitude radiusMiles
              krogerToken krogerItem walmartItem w1) as [deals0 w2].
  cbn [fst] in Hdeals. intros H. injection H as -> <- <-. subst deals0.
  rewrite Hpushed.
  set (keep := notScannedStore (option_map toLowerCase (Item.store item))).
  split.
  - apply StronglySorted_nth with (R := priceLe).
    apply sort_sorted.
    eapply Forall_impl; [apply truthyPrice_isNumber |].
    rewrite Forall_forall. intros d [Hd _]%filter_In.
    apply in_app_or in Hd. destruct Hd as [Hd | Hd];
      [revert d Hd; apply Forall_forall; apply sort_Forall; assumption
      | revert d Hd; apply Forall_forall; apply sort_Forall; assumption].
  - intros p. rewrite sort_stable.
    rewrite (filter_comm (samePrice p) keep), (filter_comm (samePrice p) keep).
    rewrite !filter_app, !sort_stable. reflexivity.
Qed.

(** C4. When the returned item has a store label, no returned deal carries a
    store label that equals it under case-insensitive comparison. *)
Theorem deals_exclude_scanned_store (upc : string) (latitude longitude radiusMiles : float)
  (w w' : World) (item : Item.t) (deals : list Recommendation.t) (scannedStore : string) :
  fetchProductWithDeals upc latitude longitude radiusMiles w = ((Some item, deals), w') ->
  Item.store item = Some scannedStore ->
  Forall (fun d => toLowerCase (Recommendation.store d) <> toLowerCase scannedStore) deals.
Proof.
  rewrite fetchProductWithDeals_run.
  destruct (candidates upc latitude longitude radiusMiles w)
    as [[[krogerToken krogerItem] walmartItem] w1].
  destruct (orTry krogerItem walmartItem) as [item0 |]; [| discriminate].
  destruct (competitorDeals upc latitude longitude radiusMiles
              krogerToken krogerItem walmartItem w1) as [deals0 w2].
  intros H Hstore. injection H as -> <- <-. rewrite Hstore. cbn [option_map].
  apply sort_Forall. rewrite Forall_forall. intros d [_ Hd]%filter_In.
  cbn [notScannedStore] in Hd. apply negb_true_iff in Hd.
  apply String.eqb_neq. exact Hd.
Qed.

Lemma getKrogerAccessToken_unconfigured (w : World) :
  truthyString (KROGER_CLIENT_ID env) = false \/
  truthyString (KROGER_CLIENT_SECRET env) = false ->
  getKrogerAccessToken w = (None, w).
Proof.
  unfold getKrogerAccessToken.
  destruct (KROGER_CLIENT_ID env) as [clientId |],
           (KROGER_CLIENT_SECRET env) as [clientSecret |]; try reflexivity.
  intros [-> | ->]; [reflexivity | rewrite orb_true_r; reflexivity].
Qed.

(** A provider is configured when its secrets are non-empty: with the Kroger
    id or secret undefined or empty, and the Walmart publisher id undefined
    or empty, nothing is requested. *)
Lemma unconfigured_no_network_call (upc : string) (latitude longitude radiusMiles : float)
  (w : World) :
  truthyString (KROGER_CLIENT_ID env) = false \/
  truthyString (KROGER_CLIENT_SECRET env) = false ->
  truthyString (WALMART_PUBLISHER_ID env) = false ->
  fetchProductWithDeals upc latitude longitude radiusMiles w = ((None, []), w).
Proof.
  intros Hk Hw. unfold fetchProductWithDeals. rewrite run_bind.
  rewrite (getKrogerAccessToken_unconfigured w Hk). cbn [fst snd].
  unfold krogerPromise, walmartPromise, hasWalmart. rewrite Hw. reflexivity.
Qed.

(** C7. With no provider configured (the Kroger client id or secret absent,
    and the Walmart publisher id absent), the call returns no item and no
    deals, and the request logs are as they were: no network call is made. *)
Theorem no_provider_no_network_call (upc : string) (latitude longitude radiusMiles : float)
  (w : World) :
  KROGER_CLIENT_ID env = None \/ KROGER_CLIENT_SECRET env = None ->
  WALMART_PUBLISHER_ID env = None ->
  fetchProductWithDeals upc latitude longitude radiusMiles w = ((None, []), w).
Proof.
  intros Hk Hw. apply unconfigured_no_network_call.
  - destruct Hk as [-> | ->]; [left | right]; reflexivity.
  - rewrite Hw. reflexivity.
Qed.

(* ----------------------------------------------------------------- *)
(** *** Which provider is asked for deals *)

Lemma fetchWalmartJSON_krogerCalls {A : Type}
  (endpoint : list WalmartCall -> WalmartCall -> Response A)
  (path : string) (query : list (string * option QueryValue)) (w : World) :
  krogerCalls (snd (fetchWalmartJSON endpoint path query w)) = krogerCalls w.
Proof. reflexivity. Qed.

Lemma searchWalmartStores_krogerCalls (lat lon radiusMiles : float) (w : World) :
  krogerCalls (snd (searchWalmartStores lat lon radiusMiles w)) = krogerCalls w.
Proof.
  unfold searchWalmartStores. rewrite run_bind.
  destruct (fst (fetchWalmartJSON _ _ _ w)); reflexivity.
Qed.

Lemma getWalmartProductByUPC_krogerCalls (upc : string) (storeId zipCode : option string)
  (w : World) :
  krogerCalls (snd (getWalmartProductByUPC upc storeId zipCode w)) = krogerCalls w.
Proof.
  unfold getWalmartProductByUPC. rewrite run_bind.
  destruct (fst (fetchWalmartJSON _ _ _ w)) as [data |]; [| reflexivity].
  destruct (orTry _ _); reflexivity.
Qed.

Lemma walmartDealsLoop_krogerCalls (upc : string) (stores : list WalmartStore) :
  forall (deals : list Recommendation.t) (w : World),
    krogerCalls (snd (walmartDealsLoop upc stores deals w)) = krogerCalls w.
Proof.
  induction stores as [| store rest IH]; intros deals w; [reflexivity |].
  cbn [walmartDealsLoop]. rewrite run_bind, IH.
  apply getWalmartProductByUPC_krogerCalls.
Qed.

Lemma getWalmartDeals_krogerCalls (upc : string) (lat lon radiusMiles : float) (w : World) :
  krogerCalls (snd (getWalmartDeals upc lat lon radiusMiles w)) = krogerCalls w.
Proof.
  rewrite getWalmartDeals_sorts. cbn [snd]. unfold walmartOffers.
  rewrite run_bind, walmartDealsLoop_krogerCalls.
  apply searchWalmartStores_krogerCalls.
Qed.

(** When the Walmart lookup found nothing, Kroger is not asked for deals:
    the offers are Walmart's alone. *)
Lemma competitorDeals_walmart_found_nothing (upc : string)
  (latitude longitude radiusMiles : float) (krogerToken : option string)
  (krogerItem : option Item.t) (w : World) :
  krogerCalls (snd (competitorDeals upc latitude longitude radiusMiles
                      krogerToken krogerItem None w))
  = krogerCalls w.
Proof.
  unfold competitorDeals. rewrite run_bind. cbn [ret snd].
  destruct krogerItem; [destruct hasWalmart |]; try reflexivity.
  apply getWalmartDeals_krogerCalls.
Qed.

(** When both lookups found the product, the item is Kroger's, and yet the
    second push runs on [walmartItem && krogerToken]: Kroger's own deal list
    is appended to the offers. *)
Lemma competitorDeals_both_found (upc : string)
  (latitude longitude radiusMiles : float) (token : string)
  (krogerItem walmartItem : Item.t) (w : World) :
  truthyString (Some token) = true ->
  orTry (Some krogerItem) (Some walmartItem) = Some krogerItem /\
  exists deals w1,
    fst (competitorDeals upc latitude longitude radiusMiles
           (Some token) (Some krogerItem) (Some walmartItem) w)
    = deals ++ fst (getKrogerDeals upc latitude longitude radiusMiles token w1).
Proof.
  intros Htoken. split; [reflexivity |].
  unfold competitorDeals. rewrite run_bind, Htoken.
  set (m := if hasWalmart then _ else _).
  exists (fst (m w)), (snd (m w)).
  rewrite run_bind. reflexivity.
Qed.

(* ================================================================= *)
(** ** [Promise.all]: the two candidate lookups do not interfere *)

(** The world with its Walmart log replaced, and with its Kroger log
    replaced. *)
Definition withWalmartCalls (w : World) (calls : list WalmartCall) : World :=
  {| krogerCalls := krogerCalls w; walmartCalls := calls |}.

Definition withKrogerCalls (w : World) (calls : list KrogerCall) : World :=
  {| krogerCalls := calls; walmartCalls := walmartCalls w |}.

(** A computation that talks to Kroger only: the Walmart log has no bearing
    on what it returns or on the Kroger requests it makes, and it leaves the
    Walmart log as it found it.  Likewise for Walmart. *)
Definition KrogerOnly {A : Type} (m : M A) : Prop :=
  forall w calls,
    m (withWalmartCalls w calls) = (fst (m w), withWalmartCalls (snd (m w)) calls).

Definition WalmartOnly {A : Type} (m : M A) : Prop :=
  forall w calls,
    m (withKrogerCalls w calls) = (fst (m w), withKrogerCalls (snd (m w)) calls).

Lemma KrogerOnly_ret {A : Type} (a : A) : KrogerOnly (ret a).
Proof. intros w calls. reflexivity. Qed.

Lemma WalmartOnly_ret {A : Type} (a : A) : WalmartOnly (ret a).
Proof. intros w calls. reflexivity. Qed.

Lemma KrogerOnly_bind {A B : Type} (m : M A) (k : A -> M B) :
  KrogerOnly m -> (forall a, KrogerOnly (k a)) -> KrogerOnly (bind m k).
Proof.
  intros Hm Hk w calls. rewrite !run_bind, Hm. cbn [fst snd]. apply Hk.
Qed.

Lemma WalmartOnly_bind {A B : Type} (m : M A) (k : A -> M B) :
  WalmartOnly m -> (forall a, WalmartOnly (k a)) -> WalmartOnly (bind m k).
Proof.
  intros Hm Hk w calls. rewrite !run_bind, Hm. cbn [fst snd]. apply Hk.
Qed.

Lemma KrogerOnly_searchKrogerLocations (lat lon radiusMiles : float) (token : string) :
  KrogerOnly (searchKrogerLocations lat lon radiusMiles token).
Proof. intros w calls. reflexivity. Qed.

Lemma KrogerOnly_getKrogerProductByUPC (upc locationId token : string) :
  KrogerOnly (getKrogerProductByUPC upc locationId token).
Proof. intros w calls. reflexivity. Qed.

Lemma KrogerOnly_krogerPromise (upc : string) (latitude longitude radiusMiles : float)
  (krogerToken : option string) :
  KrogerOnly (krogerPromise upc latitude longitude radiusMiles krogerToken).
Proof.
  unfold krogerPromise.
  destruct (negb (truthyString krogerToken)); [apply KrogerOnly_ret |].
  apply KrogerOnly_bind; [apply KrogerOnly_searchKrogerLocations |].
  intros [| loc rest]; [apply KrogerOnly_ret |].
  apply KrogerOnly_bind; [apply KrogerOnly_getKrogerProductByUPC |].
  intros product. apply KrogerOnly_ret.
Qed.

Lemma WalmartOnly_fetchWalmartJSON {A : Type}
  (endpoint : list WalmartCall -> WalmartCall -> Response A)
  (path : string) (query : list (string * option QueryValue)) :
  WalmartOnly (fetchWalmartJSON endpoint path query).
Proof. intros w calls. reflexivity. Qed.

Lemma WalmartOnly_searchWalmartStores (lat lon radiusMiles : float) :
  WalmartOnly (searchWalmartStores lat lon radiusMiles).
Proof.
  unfold searchWalmartStores.
  apply WalmartOnly_bind; [apply WalmartOnly_fetchWalmartJSON |].
  intros [data |]; apply WalmartOnly_ret.
Qed.

Lemma WalmartOnly_getWalmartProductByUPC (upc : string) (storeId zipCode : option string) :
  WalmartOnly (getWalmartProductByUPC upc storeId zipCode).
Proof.
  unfold getWalmartProductByUPC.
  apply WalmartOnly_bind; [apply WalmartOnly_fetchWalmartJSON |].
  intros [data |]; [| apply WalmartOnly_ret].
  destruct (orTry _ _); apply WalmartOnly_ret.
Qed.

Lemma WalmartOnly_walmartPromise (upc : string) (latitude longitude radiusMiles : float) :
  WalmartOnly (walmartPromise upc latitude longitude radiusMiles).
Proof.
  unfold walmartPromise.
  destruct (negb hasWalmart); [apply WalmartOnly_ret |].
  apply WalmartOnly_bind; [apply WalmartOnly_searchWalmartStores |].
  intros [| store rest]; [apply WalmartOnly_ret |].
  apply WalmartOnly_bind; [apply WalmartOnly_getWalmartProductByUPC |].
  intros product. apply WalmartOnly_ret.
Qed.

Lemma KrogerOnly_walmartCalls {A : Type} (m : M A) (w : World) :
  KrogerOnly m -> walmartCalls (snd (m w)) = walmartCalls w.
Proof.
  intros Hm. specialize (Hm w (walmartCalls w)).
  replace (withWalmartCalls w (walmartCalls w)) with w in Hm by (destruct w; reflexivity).
  apply (f_equal snd) in Hm. cbn [snd] in Hm. rewrite Hm at 1. reflexivity.
Qed.

Lemma WalmartOnly_krogerCalls {A : Type} (m : M A) (w : World) :
  WalmartOnly m -> krogerCalls (snd (m w)) = krogerCalls w.
Proof.
  intros Hm. specialize (Hm w (krogerCalls w)).
  replace (withKrogerCalls w (krogerCalls w)) with w in Hm by (destruct w; reflexivity).
  apply (f_equal snd) in Hm. cbn [snd] in Hm. rewrite Hm at 1. reflexivity.
Qed.

(** A Kroger-only and a Walmart-only computation commute: whichever runs
    first, the results and the two logs are the same. *)
Lemma KrogerOnly_WalmartOnly_commute {A B : Type} (m : M A) (m' : M B) (w : World) :
  KrogerOnly m -> WalmartOnly m' ->
  (a <- m ;; b <- m' ;; ret (a, b)) w = (b <- m' ;; a <- m ;; ret (a, b)) w.
Proof.
  intros Hm Hm'. rewrite !run_bind. cbn [ret].
  pose proof (KrogerOnly_walmartCalls m w Hm) as Ew.
  pose proof (WalmartOnly_krogerCalls m' w Hm') as Ek.
  set (K := krogerCalls (snd (m w))).
  set (W := walmartCalls (snd (m' w))).
  assert (E1 : snd (m w) = withKrogerCalls w K).
  { subst K. destruct (snd (m w)) as [kc wc]. cbn in *. subst wc. reflexivity. }
  assert (E2 : snd (m' w) = withWalmartCalls w W).
  { subst W. destruct (snd (m' w)) as [kc wc]. cbn in *. subst kc. reflexivity. }
  assert (H1 : m' (snd (m w)) = (fst (m' w), withKrogerCalls (snd (m' w)) K))
    by (rewrite E1; apply Hm').
  assert (H2 : m (snd (m' w)) = (fst (m w), withWalmartCalls (snd (m w)) W))
    by (rewrite E2; apply Hm).
  rewrite H1, H2. cbn [fst snd]. reflexivity.
Qed.

(** The two lookups under [Promise.all] give the same candidates and make
    the same requests of each provider in either order. *)
Lemma candidate_lookups_commute (upc : string) (latitude longitude radiusMiles : float)
  (krogerToken : option string) (w : World) :
  (krogerItem <- krogerPromise upc latitude longitude radiusMiles krogerToken ;;
   walmartItem <- walmartPromise upc latitude longitude radiusMiles ;;
   ret (krogerItem, walmartItem)) w
  =
  (walmartItem <- walmartPromise upc latitude longitude radiusMiles ;;
   krogerItem <- krogerPromise upc latitude longitude radiusMiles krogerToken ;;
   ret (krogerItem, walmartItem)) w.
Proof.
  apply KrogerOnly_WalmartOnly_commute;
    [apply KrogerOnly_krogerPromise | apply WalmartOnly_walmartPromise].
Qed.

(* ================================================================= *)
(** ** More on the comparator and the evaluator *)

Lemma is_nan_true_SF (a : float) : is_nan a = true -> Prim2SF a = S754_nan.
Proof.
  unfold is_nan. rewrite FloatAxioms.eqb_spec. unfold SFeqb. intros H%negb_true_iff.
  destruct (Prim2SF a) as [s | s | | s m e] eqn:E; [| | reflexivity |];
    rewrite SFcompare_refl in H by discriminate; discriminate H.
Qed.

Lemma leb_nan_l (a b : float) : is_nan a = true -> (a <=? b)%float = false.
Proof.
  intros H%is_nan_true_SF. rewrite FloatAxioms.leb_spec, H. reflexivity.
Qed.

(** The comparator [(a, b) => a.price - b.price] is a consistent one on
    prices that are numbers: it is positive exactly when [b.price < a.price],
    negative exactly when [a.price < b.price], and neither exactly when the
    two prices are equal. *)
Theorem byPrice_consistent (a b : Recommendation.t) :
  (0 <? byPrice a b)%float = (Recommendation.price b <? Recommendation.price a)%float /\
  (byPrice a b <? 0)%float = (Recommendation.price a <? Recommendation.price b)%float /\
  (is_nan (Recommendation.price a) = false -> is_nan (Recommendation.price b) = false ->
   ((0 <? byPrice a b)%float = false /\ (byPrice a b <? 0)%float = false <->
    (Recommendation.price a =? Recommendation.price b)%float = true)).
Proof.
  rewrite byPrice_pos, byPrice_neg.
  split; [reflexivity |]. split; [reflexivity |].
  intros Ha Hb. split.
  - intros [Hba Hab].
    apply leb_antisym; apply not_ltb_leb; assumption.
  - intros E. destruct (eqb_leb _ _ E) as [Hab Hba].
    split; apply leb_not_ltb; assumption.
Qed.

Lemma StronglySorted_firstn {A : Type} (R : A -> A -> Prop) (n : nat) (l : list A) :
  StronglySorted R l -> StronglySorted R (firstn n l).
Proof.
  intros Hs. revert n. induction Hs as [| x l' Hs IH Hx]; intros [| n]; cbn;
    try constructor.
  - apply IH.
  - rewrite Forall_forall in *. intros y Hy. apply Hx.
    eapply In_nth_error in Hy. destruct Hy as [k Hk].
    apply nth_error_In with (n := k).
    rewrite nth_error_firstn in Hk. destruct (k <? n)%nat; [assumption | discriminate].
Qed.

Lemma StronglySorted_filter {A : Type} (R : A -> A -> Prop) (f : A -> bool) (l : list A) :
  StronglySorted R l -> StronglySorted R (filter f l).
Proof.
  induction 1 as [| x l' Hs IH Hx]; cbn; [constructor |].
  destruct (f x); [| assumption].
  constructor; [assumption |].
  rewrite Forall_forall in *. intros y [Hy _]%filter_In. apply Hx, Hy.
Qed.

Lemma incl_firstn {A : Type} (n : nat) (l : list A) : incl (firstn n l) l.
Proof.
  intros x Hx. rewrite <- (firstn_skipn n l). apply in_or_app. left. exact Hx.
Qed.

Lemma evaluateDeal_recommendations_kept (scanned : Item.t)
  (deals recs : list Recommendation.t) :
  Item.recommendations (evaluateDeal scanned deals) = Some recs ->
  incl recs deals /\ forall R, StronglySorted R deals -> StronglySorted R recs.
Proof.
  unfold evaluateDeal. destruct deals as [| cheapest rest]; [discriminate |].
  rewrite !slice_0.
  destruct (Item.price scanned <=? Recommendation.price cheapest)%float;
    [| destruct (Item.price scanned <=? Recommendation.price cheapest * (1 + margin))%float];
    cbn [Item.recommendations]; intros [= <-].
  - split; [exact (incl_firstn 2 (cheapest :: rest)) |].
    intros R. exact (StronglySorted_firstn R 2 (cheapest :: rest)).
  - split; [exact (incl_filter _ (cheapest :: rest)) |].
    intros R. exact (StronglySorted_filter R _ (cheapest :: rest)).
  - split; [exact (incl_firstn 3 (cheapest :: rest)) |].
    intros R. exact (StronglySorted_firstn R 3 (cheapest :: rest)).
Qed.

(** What [evaluateDeal] attaches, read as a caller does.  The result always
    carries a verdict.  Recommendations are absent exactly when there were no
    offers; otherwise they are offers, in the order of the offer list, at
    most 2 of them under DEAL and at most 3 under NO DEAL. *)
Theorem evaluateDeal_verdict_and_recommendations (scanned : Item.t)
  (deals : list Recommendation.t) :
  let result := evaluateDeal scanned deals in
  Item.tag result <> None /\
  match Item.recommendations result with
  | None => deals = []
  | Some recs =>
      deals <> [] /\ incl recs deals /\
      (forall R, StronglySorted R deals -> StronglySorted R recs) /\
      (Item.tag result = Some DEAL -> (List.length recs <= 2)%nat) /\
      (Item.tag result = Some NO_DEAL -> (List.length recs <= 3)%nat)
  end.
Proof.
  unfold evaluateDeal. destruct deals as [| cheapest rest].
  - cbn. split; [discriminate | reflexivity].
  - rewrite !slice_0.
    destruct (Item.price scanned <=? Recommendation.price cheapest)%float;
      [| destruct (Item.price scanned <=? Recommendation.price cheapest * (1 + margin))%float];
      cbn [Item.tag Item.recommendations]; (split; [discriminate |]);
      (split; [discriminate |]).
    + split; [apply incl_firstn |]. split; [intros R; apply StronglySorted_firstn |].
      split; [intros _; apply firstn_le_length | discriminate].
    + split; [apply incl_filter |]. split; [intros R; apply StronglySorted_filter |].
      split; discriminate.
    + split; [apply incl_firstn |]. split; [intros R; apply StronglySorted_firstn |].
      split; [discriminate | intros _; apply firstn_le_length].
Qed.

Lemma filter_repeat_all {A : Type} (f : A -> bool) (x : A) (n : nat) :
  f x = true -> filter f (repeat x n) = repeat x n.
Proof.
  intros Hx. induction n as [| n IH]; [reflexivity |].
  cbn. rewrite Hx, IH. reflexivity.
Qed.

(** Under SO-SO there is no such bound: every offer within the margin is
    recommended, so for each [n] some scan gets [n + 1] recommendations. *)
Theorem evaluateDeal_so_so_unbounded (n : nat) :
  exists (scanned : Item.t) (deals : list Recommendation.t),
    List.length deals = S n /\
    Item.tag (evaluateDeal scanned deals) = Some SO_SO /\
    Item.recommendations (evaluateDeal scanned deals) = Some deals.
Proof.
  set (d := Recommendation.mk "0001" "Bananas" 1 "Kroger (Main St)" None).
  exists (Item.mk "0001" "Bananas" None 1.02 "" None None None None None),
         (repeat d (S n)).
  split; [apply repeat_length |].
  unfold evaluateDeal. cbn [repeat Item.price Recommendation.price d].
  change (1.02 <=? Recommendation.price d)%float with false.
  change (1.02 <=? Recommendation.price d * (1 + margin))%float with true.
  cbn [Item.tag Item.recommendations]. split; [reflexivity |].
  change (d :: repeat d n) with (repeat d (S n)).
  rewrite filter_repeat_all; reflexivity.
Qed.

(** A scanned price that is not a number is below nothing: against any
    offers the verdict is NO DEAL, with the first 3 offers. *)
Theorem evaluateDeal_nan_price (scanned : Item.t) (cheapest : Recommendation.t)
  (rest : list Recommendation.t) :
  is_nan (Item.price scanned) = true ->
  Item.tag (evaluateDeal scanned (cheapest :: rest)) = Some NO_DEAL /\
  Item.recommendations (evaluateDeal scanned (cheapest :: rest))
  = Some (firstn 3 (cheapest :: rest)).
Proof.
  intros Hnan. unfold evaluateDeal. rewrite !leb_nan_l, !slice_0 by assumption.
  split; reflexivity.
Qed.

(** A scanned price of zero, which is what a missing price becomes, is a
    DEAL against any offer list whose first price is positive. *)
Theorem evaluateDeal_zero_price (scanned : Item.t) (cheapest : Recommendation.t)
  (rest : list Recommendation.t) :
  is_zero (Item.price scanned) = true ->
  (0 <? Recommendation.price cheapest)%float = true ->
  Item.tag (evaluateDeal scanned (cheapest :: rest)) = Some DEAL.
Proof.
  unfold is_zero. intros [Hz _]%eqb_leb Hpos%ltb_leb.
  unfold evaluateDeal. rewrite (leb_trans _ _ _ Hz Hpos). reflexivity.
Qed.

(* ================================================================= *)
(** ** More on the adapters *)

(** Both deal lists come back as their documentation says, sorted by price
    ascending; the sort is stable, so stores of equal price keep the order
    in which the provider located them. *)
Theorem adapter_deals_sorted_by_price :
  (forall upc lat lon radiusMiles token w,
     StronglySorted priceLe (fst (getKrogerDeals upc lat lon radiusMiles token w)) /\
     forall p,
       filter (samePrice p) (fst (getKrogerDeals upc lat lon radiusMiles token w))
       = filter (samePrice p) (fst (krogerOffers upc lat lon radiusMiles token w))) /\
  (forall upc lat lon radiusMiles w,
     StronglySorted priceLe (fst (getWalmartDeals upc lat lon radiusMiles w)) /\
     forall p,
       filter (samePrice p) (fst (getWalmartDeals upc lat lon radiusMiles w))
       = filter (samePrice p) (fst (walmartOffers upc lat lon radiusMiles w))).
Proof.
  split; intros.
  - rewrite getKrogerDeals_sorts. cbn [fst]. split; [| intros p; apply sort_stable].
    apply sort_sorted. eapply Forall_impl; [apply truthyPrice_isNumber |].
    apply krogerOffers_truthy.
  - rewrite getWalmartDeals_sorts. cbn [fst]. split; [| intros p; apply sort_stable].
    apply sort_sorted. eapply Forall_impl; [apply truthyPrice_isNumber |].
    apply walmartOffers_truthy.
Qed.

(** The requests of the adapters, as values. *)
Definition krogerLocationsQuery (lat lon radiusMiles : float) : KrogerLocationsQuery :=
  {| filter_latLong := (lat, lon);
     filter_radiusInMiles := radiusMiles;
     filter_locationType := "STORE" |}.

Definition krogerLookupQuery (upc locationId : string) : KrogerProductsQuery :=
  {| filter_upc := Some upc;
     filter_term := None;
     filter_locationId := locationId;
     filter_limit := "1" |}.

Definition walmartStoresQuery (lat lon radiusMiles : float)
  : list (string * option QueryValue) :=
  [("lat"%string, Some (QNumber lat));
   ("lon"%string, Some (QNumber lon));
   ("radius"%string, Some (QNumber radiusMiles))].

Definition walmartItemsQuery (upc : string) (storeId zipCode : option string)
  : list (string * option QueryValue) :=
  ("upc"%string, Some (QString upc))
  :: (if truthyString storeId then [("storeId"%string, option_map QString storeId)]
      else if truthyString zipCode then [("zipCode"%string, option_map QString zipCode)]
      else []).

Lemma searchKrogerLocations_world (lat lon radiusMiles : float) (token : string) (w : World) :
  snd (searchKrogerLocations lat lon radiusMiles token w)
  = logKroger (GetLocations (krogerLocationsQuery lat lon radiusMiles) token) w.
Proof. reflexivity. Qed.

Lemma getKrogerProductByUPC_world (upc locationId token : string) (w : World) :
  snd (getKrogerProductByUPC upc locationId token w)
  = logKroger (GetProducts (krogerLookupQuery upc locationId) token) w.
Proof. reflexivity. Qed.

Lemma searchWalmartStores_world (lat lon radiusMiles : float) (w : World) :
  snd (searchWalmartStores lat lon radiusMiles w)
  = logWalmart (walmartCall "/stores" (walmartStoresQuery lat lon radiusMiles)) w.
Proof.
  unfold searchWalmartStores. rewrite run_bind.
  destruct (fst (fetchWalmartJSON _ _ _ w)); reflexivity.
Qed.

Lemma getWalmartProductByUPC_world (upc : string) (storeId zipCode : option string)
  (w : World) :
  snd (getWalmartProductByUPC upc storeId zipCode w)
  = logWalmart (walmartCall "/items" (walmartItemsQuery upc storeId zipCode)) w.
Proof.
  unfold getWalmartProductByUPC. rewrite run_bind.
  destruct (fst (fetchWalmartJSON _ _ _ w)) as [data |]; [| reflexivity].
  destruct (orTry _ _); reflexivity.
Qed.

Lemma krogerDealsLoop_world (upc token : string) (locations : list KrogerLocation) :
  forall (deals : list Recommendation.t) (w : World),
    snd (krogerDealsLoop upc token locations deals w)
    = {| krogerCalls :=
           krogerCalls w
           ++ map (fun loc => GetProducts (krogerLookupQuery upc (locationId loc)) token)
                  locations;
         walmartCalls := walmartCalls w |}.
Proof.
  induction locations as [| loc rest IH]; intros deals w.
  - cbn. rewrite app_nil_r. destruct w; reflexivity.
  - cbn [krogerDealsLoop map]. rewrite run_bind, IH, getKrogerProductByUPC_world.
    cbn [logKroger krogerCalls walmartCalls]. rewrite <- app_assoc. reflexivity.
Qed.

Lemma walmartDealsLoop_world (upc : string) (stores : list WalmartStore) :
  forall (deals : list Recommendation.t) (w : World),
    snd (walmartDealsLoop upc stores deals w)
    = {| krogerCalls := krogerCalls w;
         walmartCalls :=
           walmartCalls w
           ++ map (fun store =>
                     walmartCall "/items"
                       (walmartItemsQuery upc (Some (storeId store)) (storeZipCode store)))
                  stores |}.
Proof.
  induction stores as [| store rest IH]; intros deals w.
  - cbn. rewrite app_nil_r. destruct w; reflexivity.
  - cbn [walmartDealsLoop map]. rewrite run_bind, IH, getWalmartProductByUPC_world.
    cbn [logWalmart krogerCalls walmartCalls]. rewrite <- app_assoc. reflexivity.
Qed.

Lemma getKrogerDeals_world (upc : string) (lat lon radiusMiles : float) (token : string)
  (w : World) :
  snd (getKrogerDeals upc lat lon radiusMiles token w)
  = {| krogerCalls :=
         krogerCalls w
         ++ GetLocations (krogerLocationsQuery lat lon radiusMiles) token
            :: map (fun loc => GetProducts (krogerLookupQuery upc (locationId loc)) token)
                   (fst (searchKrogerLocations lat lon radiusMiles token w));
       walmartCalls := walmartCalls w |}.
Proof.
  rewrite getKrogerDeals_sorts. cbn [snd]. unfold krogerOffers.
  rewrite run_bind, krogerDealsLoop_world, searchKrogerLocations_world.
  cbn [logKroger krogerCalls walmartCalls]. rewrite <- app_assoc. reflexivity.
Qed.

Lemma getWalmartDeals_world (upc : string) (lat lon radiusMiles : float) (w : World) :
  snd (getWalmartDeals upc lat lon radiusMiles w)
  = {| krogerCalls := krogerCalls w;
       walmartCalls :=
         walmartCalls w
         ++ walmartCall "/stores" (walmartStoresQuery lat lon radiusMiles)
            :: map (fun store =>
                      walmartCall "/items"
                        (walmartItemsQuery upc (Some (storeId store)) (storeZipCode store)))
                   (fst (searchWalmartStores lat lon radiusMiles w)) |}.
Proof.
  rewrite getWalmartDeals_sorts. cbn [snd]. unfold walmartOffers.
  rewrite run_bind, walmartDealsLoop_world, searchWalmartStores_world.
  cbn [logWalmart krogerCalls walmartCalls]. rewrite <- app_assoc. reflexivity.
Qed.

(** A deal fetch asks the provider for its stores once and then for the
    product once per located store, in store order: never twice for a store,
    never for a store that was not located, and nothing of the other
    provider. *)
Theorem deal_fetch_requests :
  (forall upc lat lon radiusMiles token w,
     snd (getKrogerDeals upc lat lon radiusMiles token w)
     = {| krogerCalls :=
            krogerCalls w
            ++ GetLocations (krogerLocationsQuery lat lon radiusMiles) token
               :: map (fun loc => GetProducts (krogerLookupQuery upc (locationId loc)) token)
                      (fst (searchKrogerLocations lat lon radiusMiles token w));
          walmartCalls := walmartCalls w |}) /\
  (forall upc lat lon radiusMiles w,
     snd (getWalmartDeals upc lat lon radiusMiles w)
     = {| krogerCalls := krogerCalls w;
          walmartCalls :=
            walmartCalls w
            ++ walmartCall "/stores" (walmartStoresQuery lat lon radiusMiles)
               :: map (fun store =>
                         walmartCall "/items"
                           (walmartItemsQuery upc (Some (storeId store)) (storeZipCode store)))
                      (fst (searchWalmartStores lat lon radiusMiles w)) |}).
Proof.
  split; intros; [apply getKrogerDeals_world | apply getWalmartDeals_world].
Qed.

Lemma keepParam_spec (kv : string * option QueryValue) (k : string) (v : QueryValue) :
  In (k, v) (keepParam kv) <-> kv = (k, Some v) /\ v <> QString "".
Proof.
  destruct kv as [k' [[s | n] |]]; cbn [keepParam fst snd].
  - destruct (String.eqb_spec s "") as [-> | Hs]; cbn.
    + split; [tauto |]. intros [E Hv]. injection E as <- <-. congruence.
    + split.
      * intros [E | []]. injection E as <- <-. split; [reflexivity | congruence].
      * intros [E _]. injection E as <- <-. left. reflexivity.
  - cbn. split.
    + intros [E | []]. injection E as <- <-. split; [reflexivity | discriminate].
    + intros [E _]. injection E as <- <-. left. reflexivity.
  - cbn. split; [tauto |]. intros [E _]. discriminate E.
Qed.

(** Every Walmart request is well formed: its parameters are exactly the
    given ones that are neither null nor empty, and a publisher id or API
    key, when sent, is the trimmed value of its environment variable and is
    not empty. *)
Theorem walmart_request_well_formed (path : string)
  (query : list (string * option QueryValue)) :
  let call := walmartCall path query in
  call_path call = path /\
  (forall k v, In (k, v) (call_params call) <-> In (k, Some v) query /\ v <> QString "") /\
  (forall id, call_publisherId call = Some id ->
     id <> ""%string /\ exists raw, WALMART_PUBLISHER_ID env = Some raw /\ id = trim raw) /\
  (forall key, call_apiKey call = Some key ->
     key <> ""%string /\ exists raw, WALMART_API_KEY env = Some raw /\ key = trim raw).
Proof.
  cbn [walmartCall call_path call_params call_publisherId call_apiKey].
  split; [reflexivity |]. split; [| split].
  - intros k v. rewrite in_flat_map. split.
    + intros (kv & Hin & Hk). apply keepParam_spec in Hk. destruct Hk as [-> Hv].
      split; assumption.
    + intros [Hin Hv]. exists (k, Some v). split; [assumption |].
      apply keepParam_spec. split; [reflexivity | assumption].
  - unfold getPublisherId. intros id.
    destruct (WALMART_PUBLISHER_ID env) as [raw |]; [| discriminate].
    destruct (truthyString (Some raw) && truthyString (Some (trim raw))) eqn:E;
      [| discriminate].
    intros [= <-]. apply andb_prop in E. destruct E as [_ E]. cbn in E.
    apply negb_true_iff, String.eqb_neq in E. split; [assumption |].
    exists raw. split; reflexivity.
  - unfold getApiKey. intros key.
    destruct (WALMART_API_KEY env) as [raw |]; [| discriminate].
    destruct (truthyString (Some raw) && truthyString (Some (trim raw))) eqn:E;
      [| discriminate].
    intros [= <-]. apply andb_prop in E. destruct E as [_ E]. cbn in E.
    apply negb_true_iff, String.eqb_neq in E. split; [assumption |].
    exists raw. split; reflexivity.
Qed.

(** A Walmart product lookup is keyed by the store when a store id is given,
    by the zip code only when it is not, and never by both. *)
Theorem walmart_lookup_store_or_zip (upc : string) (storeId zipCode : option string)
  (w : World) :
  let call := walmartCall "/items" (walmartItemsQuery upc storeId zipCode) in
  snd (getWalmartProductByUPC upc storeId zipCode w) = logWalmart call w /\
  call_params call
  = (if (upc =? "")%string then [] else [("upc"%string, QString upc)])
    ++ (if truthyString storeId then [("storeId"%string, QString (storeId ?? ""%string))]
        else if truthyString zipCode
             then [("zipCode"%string, QString (zipCode ?? ""%string))]
             else []).
Proof.
  split; [apply getWalmartProductByUPC_world |].
  cbn [walmartCall call_params walmartItemsQuery flat_map keepParam fst snd].
  f_equal.
  destruct storeId as [s |]; cbn [truthyString].
  - destruct (String.eqb_spec s "") as [-> | Hs]; cbn [negb].
    + destruct zipCode as [z |]; cbn [truthyString]; [| reflexivity].
      destruct (z =? "")%string eqn:Ez; cbn; rewrite ?Ez; reflexivity.
    + cbn. apply String.eqb_neq in Hs. rewrite Hs. reflexivity.
  - destruct zipCode as [z |]; cbn [truthyString]; [| reflexivity].
    destruct (z =? "")%string eqn:Ez; cbn; rewrite ?Ez; reflexivity.
Qed.

Lemma firstPresentNumeric_number (fields : list JsValue) :
  is_nan (firstPresentNumeric fields) = false.
Proof.
  induction fields as [| v rest IH]; [reflexivity |].
  cbn [firstPresentNumeric].
  destruct (nullish v); cbn [negb andb]; [assumption |].
  destruct (is_nan (Number v)) eqn:E; cbn [negb]; assumption.
Qed.

(** Whatever Walmart answers, the price of a Walmart item is a number, never
    [NaN]: in a product lookup and in every search result. *)
Theorem walmart_prices_are_numbers :
  (forall itemData, is_nan (walmartPrice itemData) = false) /\
  (forall upc storeId zipCode w,
     match fst (getWalmartProductByUPC upc storeId zipCode w) with
     | Some item => is_nan (Item.price item) = false
     | None => True
     end) /\
  (forall term lat lon radiusMiles w,
     Forall (fun item => is_nan (Item.price item) = false)
            (fst (searchWalmartProducts term lat lon radiusMiles w))).
Proof.
  assert (H : forall itemData, is_nan (walmartPrice itemData) = false)
    by (intros; rewrite walmartPrice_firstPresentNumeric; apply firstPresentNumeric_number).
  split; [exact H |]. split.
  - intros. unfold getWalmartProductByUPC. rewrite run_bind.
    destruct (fst (fetchWalmartJSON _ _ _ w)) as [data |]; [| exact I].
    destruct (orTry _ _) as [itemData |]; [| exact I]. apply H.
  - intros. unfold searchWalmartProducts. rewrite run_bind.
    destruct (fst (fetchWalmartJSON _ _ _ w)) as [data |]; [| constructor].
    rewrite run_bind. cbn [ret fst]. rewrite Forall_map. rewrite Forall_forall.
    intros itemData _. apply H.
Qed.

(* ================================================================= *)
(** ** More on the aggregator *)

(** An item as an adapter hands it over: it carries the code it was looked
    up by and nothing of an evaluation. *)
Definition freshItem (upc : string) (item : Item.t) : Prop :=
  Item.id item = upc /\ Item.tag item = None /\ Item.recommendations item = None.

(** An offer as a deal fetch builds it: for the product code, with no
    distance, and labelled with its provider. *)
Definition providerOffer (upc : string) (d : Recommendation.t) : Prop :=
  Recommendation.id d = upc /\ Recommendation.distance d = None /\
  (String.prefix "Walmart" (Recommendation.store d) = true \/
   String.prefix "Kroger (" (Recommendation.store d) = true).

Lemma prefix_append (s t : string) : String.prefix s (s ++ t) = true.
Proof.
  induction s as [| a s IH]; cbn.
  - destruct t; reflexivity.
  - destruct (ascii_dec a a) as [_ | Hne]; [exact IH | contradiction Hne; reflexivity].
Qed.

Lemma getKrogerProductByUPC_fresh (upc locationId token : string) (w : World) :
  match fst (getKrogerProductByUPC upc locationId token w) with
  | Some item => freshItem upc item
  | None => True
  end.
Proof.
  unfold getKrogerProductByUPC. cbn [fst].
  destruct (bodyOf _) as [json |]; [| exact I].
  destruct (hd_error _) as [item |]; [| exact I].
  repeat split.
Qed.

Lemma getWalmartProductByUPC_fresh (upc : string) (storeId zipCode : option string)
  (w : World) :
  match fst (getWalmartProductByUPC upc storeId zipCode w) with
  | Some item =>
      freshItem upc item /\
      exists label, Item.store item = Some label /\ String.prefix "Walmart" label = true
  | None => True
  end.
Proof.
  unfold getWalmartProductByUPC. rewrite run_bind.
  destruct (fst (fetchWalmartJSON _ _ _ w)) as [data |]; [| exact I].
  destruct (orTry _ _) as [itemData |]; [| exact I].
  cbn [ret fst]. split; [repeat split |].
  eexists. split; [reflexivity |].
  destruct (truthyString storeId); [apply (prefix_append "Walmart" (" (" ++ _)) | reflexivity].
Qed.

Lemma krogerDealsLoop_offers (upc token : string) (locations : list KrogerLocation) :
  forall (deals : list Recommendation.t) (w : World),
    Forall (providerOffer upc) deals ->
    Forall (providerOffer upc) (fst (krogerDealsLoop upc token locations deals w)).
Proof.
  induction locations as [| loc rest IH]; intros deals w Hd; [exact Hd |].
  cbn [krogerDealsLoop]. rewrite run_bind.
  pose proof (getKrogerProductByUPC_fresh upc (locationId loc) token w) as Hp.
  destruct (fst (getKrogerProductByUPC upc (locationId loc) token w)) as [product |];
    apply IH; [| exact Hd].
  destruct (truthy (Item.price product)); [| exact Hd].
  apply Forall_app. split; [exact Hd |]. constructor; [| constructor].
  destruct Hp as (Hid & _). repeat split; [exact Hid | right; apply prefix_append].
Qed.

Lemma walmartDealsLoop_offers (upc : string) (stores : list WalmartStore) :
  forall (deals : list Recommendation.t) (w : World),
    Forall (providerOffer upc) deals ->
    Forall (providerOffer upc) (fst (walmartDealsLoop upc stores deals w)).
Proof.
  induction stores as [| store rest IH]; intros deals w Hd; [exact Hd |].
  cbn [walmartDealsLoop]. rewrite run_bind.
  pose proof (getWalmartProductByUPC_fresh upc (Some (storeId store))
                (storeZipCode store) w) as Hp.
  destruct (fst (getWalmartProductByUPC upc (Some (storeId store))
                   (storeZipCode store) w)) as [product |];
    apply IH; [| exact Hd].
  destruct (truthy (Item.price product)); [| exact Hd].
  apply Forall_app. split; [exact Hd |]. constructor; [| constructor].
  destruct Hp as ((Hid & _) & label & Hstore & Hlabel).
  repeat split; [exact Hid |]. left. cbn [Recommendation.store]. rewrite Hstore. exact Hlabel.
Qed.

Lemma competitorDeals_offers (upc : string) (latitude longitude radiusMiles : float)
  (krogerToken : option string) (krogerItem walmartItem : option Item.t) (w : World) :
  Forall (providerOffer upc)
    (fst (competitorDeals upc latitude longitude radiusMiles
            krogerToken krogerItem walmartItem w)).
Proof.
  destruct (competitorDeals_pushed upc latitude longitude radiusMiles
              krogerToken krogerItem walmartItem w)
    as (fromWalmart & fromKroger & Hpushed & -> & _).
  assert (Hall : Forall (providerOffer upc) (fromWalmart ++ fromKroger)).
  { rewrite <- Hpushed. unfold pushedOffers. rewrite run_bind.
    set (m := match krogerItem with Some _ => _ | None => _ end).
    assert (HW : Forall (providerOffer upc) (fst (m w))).
    { subst m. destruct krogerItem; [destruct hasWalmart |]; try constructor.
      unfold walmartOffers. rewrite run_bind. apply walmartDealsLoop_offers. constructor. }
    destruct walmartItem; [destruct (truthyString krogerToken) |]; cbn [ret fst];
      try exact HW.
    rewrite run_bind. cbn [ret fst]. apply Forall_app. split; [exact HW |].
    unfold krogerOffers. rewrite run_bind. apply krogerDealsLoop_offers. constructor. }
  apply Forall_app in Hall. destruct Hall as [HW HK].
  apply Forall_app. split; apply sort_Forall; assumption.
Qed.

Lemma candidates_fresh (upc : string) (latitude longitude radiusMiles : float) (w : World) :
  let '(_, krogerItem, walmartItem) :=
    fst (candidates upc latitude longitude radiusMiles w) in
  match orTry krogerItem walmartItem with
  | Some item => freshItem upc item
  | None => True
  end.
Proof.
  unfold candidates. rewrite !run_bind. cbn [ret fst].
  set (w0 := snd (getKrogerAccessToken w)).
  set (krogerToken := fst (getKrogerAccessToken w)).
  set (w1 := snd (krogerPromise upc latitude longitude radiusMiles krogerToken w0)).
  assert (HK : match fst (krogerPromise upc latitude longitude radiusMiles krogerToken w0)
               with Some item => freshItem upc item | None => True end).
  { unfold krogerPromise. destruct (negb (truthyString krogerToken)); [exact I |].
    rewrite run_bind. destruct (fst (searchKrogerLocations _ _ _ _ w0)) as [| loc rest];
      [exact I |].
    rewrite run_bind. cbn [ret fst].
    pose proof (getKrogerProductByUPC_fresh upc (locationId loc)
                  (krogerToken ?? ""%string)
                  (snd (searchKrogerLocations latitude longitude radiusMiles
                          (krogerToken ?? ""%string) w0))) as Hp.
    destruct (fst (getKrogerProductByUPC _ _ _ _)) as [product |]; [| exact I].
    exact Hp. }
  assert (HW : match fst (walmartPromise upc latitude longitude radiusMiles w1)
               with Some item => freshItem upc item | None => True end).
  { unfold walmartPromise. destruct (negb hasWalmart); [exact I |].
    rewrite run_bind. destruct (fst (searchWalmartStores _ _ _ w1)) as [| store rest];
      [exact I |].
    rewrite run_bind. cbn [ret fst].
    pose proof (getWalmartProductByUPC_fresh upc (Some (storeId store))
                  (storeZipCode store)
                  (snd (searchWalmartStores latitude longitude radiusMiles w1))) as Hp.
    destruct (fst (getWalmartProductByUPC _ _ _ _)) as [product |]; [| exact I].
    destruct Hp as [Hp _]. exact Hp. }
  destruct (fst (krogerPromise upc latitude longitude radiusMiles krogerToken w0));
    [exact HK |].
  cbn [orTry].
  destruct (fst (walmartPromise upc latitude longitude radiusMiles w1)); [exact HW | exact I].
Qed.

(** What a scan resolves to.  With no item there are no deals.  An item
    carries the scanned code as its id and no verdict or recommendations
    yet; every deal is for that code, has no distance, and is labelled with
    the provider it came from. *)
Theorem fetched_item_and_deals_shape (upc : string)
  (latitude longitude radiusMiles : float) (w : World) :
  match fst (fetchProductWithDeals upc latitude longitude radiusMiles w) with
  | (Some item, deals) => freshItem upc item /\ Forall (providerOffer upc) deals
  | (None, deals) => deals = []
  end.
Proof.
  rewrite fetchProductWithDeals_run.
  pose proof (candidates_fresh upc latitude longitude radiusMiles w) as Hc.
  destruct (candidates upc latitude longitude radiusMiles w)
    as [[[krogerToken krogerItem] walmartItem] w1].
  cbn [fst] in Hc.
  destruct (orTry krogerItem walmartItem) as [item |]; [| reflexivity].
  pose proof (competitorDeals_offers upc latitude longitude radiusMiles
                krogerToken krogerItem walmartItem w1) as Hd.
  destruct (competitorDeals upc latitude longitude radiusMiles
              krogerToken krogerItem walmartItem w1) as [deals w2].
  cbn [fst] in *. split; [exact Hc |].
  apply sort_Forall. rewrite Forall_forall in *.
  intros d [Hin _]%filter_In. apply Hd, Hin.
Qed.

(** What the deals of a scan satisfy, for the evaluator that consumes them. *)
Lemma fetched_deals_invariants (upc : string) (latitude longitude radiusMiles : float)
  (w w' : World) (item : Item.t) (deals : list Recommendation.t) :
  fetchProductWithDeals upc latitude longitude radiusMiles w = ((Some item, deals), w') ->
  StronglySorted priceLe deals /\ Forall truthyPrice deals.
Proof.
  rewrite fetchProductWithDeals_run.
  destruct (candidates upc latitude longitude radiusMiles w)
    as [[[krogerToken krogerItem] walmartItem] w1].
  destruct (orTry krogerItem walmartItem) as [item0 |]; [| discriminate].
  destruct (competitorDeals_pushed upc latitude longitude radiusMiles
              krogerToken krogerItem walmartItem w1)
    as (fromWalmart & fromKroger & _ & Hdeals & HtW & HtK).
  destruct (competitorDeals upc latitude longitude radiusMiles
              krogerToken krogerItem walmartItem w1) as [deals0 w2].
  cbn [fst] in Hdeals. intros H. injection H as -> <- <-. subst deals0.
  assert (Ht : Forall truthyPrice
                 (filter (notScannedStore (option_map toLowerCase (Item.store item)))
                    (sort byPrice fromWalmart ++ sort byPrice fromKroger))).
  { rewrite Forall_forall. intros d [Hd _]%filter_In. revert d Hd.
    apply Forall_forall. apply Forall_app. split; apply sort_Forall; assumption. }
  split.
  - apply sort_sorted. eapply Forall_impl; [apply truthyPrice_isNumber | exact Ht].
  - apply sort_Forall. exact Ht.
Qed.

(** The verdict of a scan means what it says: with deals at hand, the item
    is a DEAL exactly when its price is at or below the price of every deal
    returned, because the deals arrive sorted. *)
Theorem scan_is_deal_iff_cheapest (upc : string) (latitude longitude radiusMiles : float)
  (w w' : World) (item : Item.t) (deals : list Recommendation.t) :
  fetchProductWithDeals upc latitude longitude radiusMiles w = ((Some item, deals), w') ->
  deals <> [] ->
  (Item.tag (evaluateDeal item deals) = Some DEAL <->
   Forall (fun d => (Item.price item <=? Recommendation.price d)%float = true) deals).
Proof.
  intros Hfetch Hne. destruct (fetched_deals_invariants _ _ _ _ _ _ _ _ Hfetch) as [Hs _].
  destruct deals as [| cheapest rest]; [congruence |].
  unfold evaluateDeal.
  destruct (Item.price item <=? Recommendation.price cheapest)%float eqn:E.
  - cbn [Item.tag]. split; [intros _ | reflexivity].
    inversion Hs as [| ? ? _ Hc]; subst. constructor; [exact E |].
    eapply Forall_impl; [| exact Hc]. intros d Hd. exact (leb_trans _ _ _ E Hd).
  - split.
    + destruct (Item.price item <=? Recommendation.price cheapest * (1 + margin))%float;
        discriminate.
    + intros Hall. inversion Hall as [| ? ? Hc _]; subst. congruence.
Qed.

(** The recommendations shown for a scan are sorted by price ascending, and
    none of them has a price that is zero or not a number. *)
Theorem scan_recommendations_sorted (upc : string) (latitude longitude radiusMiles : float)
  (w w' : World) (item : Item.t) (deals recs : list Recommendation.t) :
  fetchProductWithDeals upc latitude longitude radiusMiles w = ((Some item, deals), w') ->
  Item.recommendations (evaluateDeal item deals) = Some recs ->
  (forall i j a b,
     (i < j)%nat -> nth_error recs i = Some a -> nth_error recs j = Some b ->
     (Recommendation.price a <=? Recommendation.price b)%float = true) /\
  Forall (fun d => is_zero (Recommendation.price d) = false /\
                   is_nan (Recommendation.price d) = false) recs.
Proof.
  intros Hfetch Hrecs.
  destruct (fetched_deals_invariants _ _ _ _ _ _ _ _ Hfetch) as [Hs Ht].
  destruct (evaluateDeal_recommendations_kept item deals recs Hrecs) as [Hincl Hsorted].
  split.
  - apply StronglySorted_nth with (R := priceLe). apply Hsorted, Hs.
  - rewrite Forall_forall in *. intros d Hd.
    apply truthy_nonzero_number. apply Ht, Hincl, Hd.
Qed.

(* ----------------------------------------------------------------- *)
(** *** What is asked of whom *)

(** A provider is asked for its deals only when the other provider's lookup
    found the product: with no Kroger candidate nothing is asked of Walmart,
    with no Walmart candidate nothing of Kroger. *)
Theorem competitorDeals_asks_only_when_found (upc : string)
  (latitude longitude radiusMiles : float) (krogerToken : option string)
  (krogerItem walmartItem : option Item.t) (w : World) :
  walmartCalls (snd (competitorDeals upc latitude longitude radiusMiles
                       krogerToken None walmartItem w)) = walmartCalls w /\
  krogerCalls (snd (competitorDeals upc latitude longitude radiusMiles
                      krogerToken krogerItem None w)) = krogerCalls w.
Proof.
  split; [| apply competitorDeals_walmart_found_nothing].
  unfold competitorDeals. rewrite run_bind. cbn [ret fst snd].
  destruct walmartItem; [destruct (truthyString krogerToken) |]; try reflexivity.
  rewrite run_bind. cbn [ret snd]. rewrite getKrogerDeals_world. reflexivity.
Qed.

(** The request carries the bearer token. *)
Definition carriesToken (token : string) (c : KrogerCall) : Prop :=
  match c with
  | PostToken _ _ => False
  | GetLocations _ t | GetProducts _ t => t = token
  end.

(** All that the computation asks of Kroger, it asks with the token. *)
Definition asksKrogerWith (token : string) {A : Type} (m : M A) : Prop :=
  forall w, exists rest,
    krogerCalls (snd (m w)) = krogerCalls w ++ rest /\ Forall (carriesToken token) rest.

Lemma asksKrogerWith_ret (token : string) {A : Type} (a : A) :
  asksKrogerWith token (ret a).
Proof. intros w. exists []. rewrite app_nil_r. split; [reflexivity | constructor]. Qed.

Lemma asksKrogerWith_bind (token : string) {A B : Type} (m : M A) (k : A -> M B) :
  asksKrogerWith token m -> (forall a, asksKrogerWith token (k a)) ->
  asksKrogerWith token (bind m k).
Proof.
  intros Hm Hk w. rewrite run_bind.
  destruct (Hm w) as (r1 & E1 & F1).
  destruct (Hk (fst (m w)) (snd (m w))) as (r2 & E2 & F2).
  exists (r1 ++ r2). rewrite E2, E1, app_assoc. split; [reflexivity |].
  apply Forall_app. split; assumption.
Qed.

Lemma asksKrogerWith_WalmartOnly (token : string) {A : Type} (m : M A) :
  WalmartOnly m -> asksKrogerWith token m.
Proof.
  intros Hm w. exists []. rewrite app_nil_r.
  split; [apply WalmartOnly_krogerCalls; assumption | constructor].
Qed.

Lemma asksKrogerWith_searchKrogerLocations (lat lon radiusMiles : float) (token : string) :
  asksKrogerWith token (searchKrogerLocations lat lon radiusMiles token).
Proof.
  intros w. eexists. split; [reflexivity |]. constructor; [reflexivity | constructor].
Qed.

Lemma asksKrogerWith_getKrogerProductByUPC (upc locationId token : string) :
  asksKrogerWith token (getKrogerProductByUPC upc locationId token).
Proof.
  intros w. eexists. split; [reflexivity |]. constructor; [reflexivity | constructor].
Qed.

Lemma asksKrogerWith_getKrogerDeals (upc : string) (lat lon radiusMiles : float)
  (token : string) :
  asksKrogerWith token (getKrogerDeals upc lat lon radiusMiles token).
Proof.
  intros w. eexists. rewrite getKrogerDeals_world. cbn [krogerCalls].
  split; [reflexivity |]. constructor; [reflexivity |].
  rewrite Forall_map. apply Forall_forall. intros loc _. reflexivity.
Qed.

Lemma asksKrogerWith_krogerPromise (upc : string) (latitude longitude radiusMiles : float)
  (krogerToken : option string) :
  asksKrogerWith (krogerToken ?? ""%string)
    (krogerPromise upc latitude longitude radiusMiles krogerToken).
Proof.
  unfold krogerPromise.
  destruct (negb (truthyString krogerToken)); [apply asksKrogerWith_ret |].
  apply asksKrogerWith_bind; [apply asksKrogerWith_searchKrogerLocations |].
  intros [| loc rest]; [apply asksKrogerWith_ret |].
  apply asksKrogerWith_bind; [apply asksKrogerWith_getKrogerProductByUPC |].
  intros product. apply asksKrogerWith_ret.
Qed.

Lemma WalmartOnly_walmartDealsLoop (upc : string) (stores : list WalmartStore) :
  forall deals, WalmartOnly (walmartDealsLoop upc stores deals).
Proof.
  induction stores as [| store rest IH]; intros deals; [apply WalmartOnly_ret |].
  cbn [walmartDealsLoop].
  apply WalmartOnly_bind; [apply WalmartOnly_getWalmartProductByUPC |].
  intros product. apply IH.
Qed.

Lemma WalmartOnly_getWalmartDeals (upc : string) (lat lon radiusMiles : float) :
  WalmartOnly (getWalmartDeals upc lat lon radiusMiles).
Proof.
  unfold getWalmartDeals, walmartOffers.
  apply WalmartOnly_bind; [| intros; apply WalmartOnly_ret].
  apply WalmartOnly_bind; [apply WalmartOnly_searchWalmartStores |].
  intros stores. apply WalmartOnly_walmartDealsLoop.
Qed.

Lemma asksKrogerWith_competitorDeals (upc : string) (latitude longitude radiusMiles : float)
  (krogerToken : option string) (krogerItem walmartItem : option Item.t) :
  asksKrogerWith (krogerToken ?? ""%string)
    (competitorDeals upc latitude longitude radiusMiles krogerToken krogerItem walmartItem).
Proof.
  unfold competitorDeals. apply asksKrogerWith_bind.
  - destruct krogerItem; [destruct hasWalmart |]; try apply asksKrogerWith_ret.
    apply asksKrogerWith_WalmartOnly, WalmartOnly_getWalmartDeals.
  - intros deals.
    destruct walmartItem; [destruct (truthyString krogerToken) |];
      try apply asksKrogerWith_ret.
    apply asksKrogerWith_bind; [apply asksKrogerWith_getKrogerDeals |].
    intros krogerDeals. apply asksKrogerWith_ret.
Qed.

Lemma getKrogerAccessToken_requests (w : World) :
  snd (getKrogerAccessToken w) = w \/
  exists clientId clientSecret,
    KROGER_CLIENT_ID env = Some clientId /\ KROGER_CLIENT_SECRET env = Some clientSecret /\
    snd (getKrogerAccessToken w) = logKroger (PostToken clientId clientSecret) w.
Proof.
  unfold getKrogerAccessToken.
  destruct (KROGER_CLIENT_ID env) as [clientId |],
           (KROGER_CLIENT_SECRET env) as [clientSecret |]; try (left; reflexivity).
  destruct (negb (truthyString (Some clientId)) || negb (truthyString (Some clientSecret)));
    [left; reflexivity |].
  right. exists clientId, clientSecret. repeat split.
Qed.

(** The token of a scan.  Each scan asks Kroger for a token afresh and at
    most once, with the configured id and secret, before anything else; every
    later request to Kroger in that scan carries the token that came back. *)
Theorem scan_requests_carry_the_token (upc : string)
  (latitude longitude radiusMiles : float) (w : World) :
  exists tokenRequest rest,
    krogerCalls (snd (fetchProductWithDeals upc latitude longitude radiusMiles w))
    = krogerCalls w ++ tokenRequest ++ rest /\
    (tokenRequest = [] \/
     exists clientId clientSecret,
       KROGER_CLIENT_ID env = Some clientId /\
       KROGER_CLIENT_SECRET env = Some clientSecret /\
       tokenRequest = [PostToken clientId clientSecret]) /\
    Forall (carriesToken (fst (getKrogerAccessToken w) ?? ""%string)) rest.
Proof.
  unfold fetchProductWithDeals. rewrite run_bind.
  set (krogerToken := fst (getKrogerAccessToken w)).
  set (w0 := snd (getKrogerAccessToken w)).
  assert (Hrest : asksKrogerWith (krogerToken ?? ""%string)
            (krogerItem <- krogerPromise upc latitude longitude radiusMiles krogerToken ;;
             walmartItem <- walmartPromise upc latitude longitude radiusMiles ;;
             match orTry krogerItem walmartItem with
             | Some item =>
                 deals <- competitorDeals upc latitude longitude radiusMiles
                            krogerToken krogerItem walmartItem ;;
                 ret (Some item,
                      sort byPrice
                        (filter (notScannedStore (option_map toLowerCase (Item.store item)))
                           deals))
             | None => ret (None, [])
             end)).
  { apply asksKrogerWith_bind; [apply asksKrogerWith_krogerPromise |]. intros krogerItem.
    apply asksKrogerWith_bind;
      [apply asksKrogerWith_WalmartOnly, WalmartOnly_walmartPromise |].
    intros walmartItem.
    destruct (orTry krogerItem walmartItem); [| apply asksKrogerWith_ret].
    apply asksKrogerWith_bind; [apply asksKrogerWith_competitorDeals |].
    intros deals. apply asksKrogerWith_ret. }
  destruct (Hrest w0) as (rest & Erest & Frest).
  destruct (getKrogerAccessToken_requests w) as [E0 | (clientId & clientSecret & Hid & Hs & E0)].
  - exists [], rest. rewrite Erest. subst w0. rewrite E0.
    split; [reflexivity |]. split; [left; reflexivity | exact Frest].
  - exists [PostToken clientId clientSecret], rest. rewrite Erest. subst w0. rewrite E0.
    cbn [logKroger krogerCalls]. rewrite <- app_assoc.
    split; [reflexivity |]. split; [| exact Frest].
    right. exists clientId, clientSecret. repeat split; assumption.
Qed.

(** Without a token (Kroger not configured, the token request failed, or it
    answered without an [access_token]) a scan asks nothing more of Kroger:
    no store search, no product lookup. *)
Theorem scan_without_token_leaves_kroger_alone (upc : string)
  (latitude longitude radiusMiles : float) (w : World) :
  truthyString (fst (getKrogerAccessToken w)) = false ->
  krogerCalls (snd (fetchProductWithDeals upc latitude longitude radiusMiles w))
  = krogerCalls (snd (getKrogerAccessToken w)).
Proof.
  intros Htoken. unfold fetchProductWithDeals. rewrite run_bind.
  set (krogerToken := fst (getKrogerAccessToken w)) in *.
  set (w0 := snd (getKrogerAccessToken w)).
  unfold krogerPromise. rewrite Htoken. cbn [negb]. rewrite run_bind. cbn [ret fst snd].
  rewrite run_bind. cbn [orTry].
  pose proof (WalmartOnly_krogerCalls _ w0
                (WalmartOnly_walmartPromise upc latitude longitude radiusMiles)) as Ew.
  destruct (fst (walmartPromise upc latitude longitude radiusMiles w0)) as [item |];
    [| exact Ew].
  rewrite run_bind. cbn [ret snd].
  unfold competitorDeals. rewrite run_bind. cbn [ret fst snd]. rewrite Htoken.
  cbn [ret snd]. exact Ew.
Qed.

(** A publisher id that is set but blank: the aggregator takes Walmart to be
    configured, since it tests the raw variable, while the adapter, which
    trims it, sends its requests without a publisher id. *)
Theorem blank_publisher_id (id path : string) (query : list (string * option QueryValue)) :
  WALMART_PUBLISHER_ID env = Some id -> id <> ""%string -> trim id = ""%string ->
  hasWalmart = true /\ call_publisherId (walmartCall path query) = None.
Proof.
  intros Hid Hne Htrim. unfold hasWalmart, walmartCall, getPublisherId.
  cbn [call_publisherId]. rewrite Hid. cbn [truthyString]. rewrite Htrim.
  apply String.eqb_neq in Hne. rewrite Hne. split; reflexivity.
Qed.

(* ----------------------------------------------------------------- *)
(** *** Search across providers *)

Lemma searchKrogerProducts_items (term : string) (lat lon radiusMiles : float)
  (token : string) (w : World) :
  Forall (fun item =>
            Item.tag item = None /\ Item.recommendations item = None /\
            Item.store item <> None)
         (fst (searchKrogerProducts term lat lon radiusMiles token w)).
Proof.
  unfold searchKrogerProducts. rewrite run_bind.
  destruct (fst (searchKrogerLocations _ _ _ _ w)) as [| loc0 rest]; [constructor |].
  cbn [fst]. destruct (bodyOf _) as [json |]; [| constructor].
  rewrite Forall_map. apply Forall_forall. intros item _. cbn. repeat split. discriminate.
Qed.

Lemma searchWalmartProducts_items (term : string) (lat lon radiusMiles : float) (w : World) :
  Forall (fun item =>
            Item.tag item = None /\ Item.recommendations item = None /\
            Item.store item <> None)
         (fst (searchWalmartProducts term lat lon radiusMiles w)).
Proof.
  unfold searchWalmartProducts. rewrite run_bind.
  destruct (fst (fetchWalmartJSON _ _ _ w)) as [data |]; [| constructor].
  rewrite run_bind. cbn [ret fst].
  rewrite Forall_map. apply Forall_forall. intros item _. cbn. repeat split. discriminate.
Qed.

(** A search only lists.  Its result is Kroger's results, as
    [searchKrogerProducts] returns them with the token of this search
    (nothing without a token), followed by Walmart's, as
    [searchWalmartProducts] returns them after Kroger has been asked
    (nothing when Walmart is not configured); and no result carries a verdict
    or recommendations, while every result names a store. *)
Theorem searchProducts_lists_unevaluated_items (term : string)
  (latitude longitude radiusMiles : float) (w : World) :
  let krogerToken := fst (getKrogerAccessToken w) in
  let w0 := snd (getKrogerAccessToken w) in
  let fromKroger :=
    if truthyString krogerToken
    then searchKrogerProducts term latitude longitude radiusMiles
           (krogerToken ?? ""%string) w0
    else ([], w0) in
  let fromWalmart :=
    if hasWalmart
    then searchWalmartProducts term latitude longitude radiusMiles (snd fromKroger)
    else ([], snd fromKroger) in
  searchProducts term latitude longitude radiusMiles w
  = (fst fromKroger ++ fst fromWalmart, snd fromWalmart) /\
  Forall (fun item =>
            Item.tag item = None /\ Item.recommendations item = None /\
            Item.store item <> None)
         (fst (searchProducts term latitude longitude radiusMiles w)).
Proof.
  cbv zeta.
  set (krogerToken := fst (getKrogerAccessToken w)).
  set (w0 := snd (getKrogerAccessToken w)).
  assert (E : searchProducts term latitude longitude radiusMiles w
              = (fst (if truthyString krogerToken
                      then searchKrogerProducts term latitude longitude radiusMiles
                             (krogerToken ?? ""%string) w0
                      else ([], w0))
                 ++ fst (if hasWalmart
                         then searchWalmartProducts term latitude longitude radiusMiles
                                (snd (if truthyString krogerToken
                                      then searchKrogerProducts term latitude longitude
                                             radiusMiles (krogerToken ?? ""%string) w0
                                      else ([], w0)))
                         else ([], snd (if truthyString krogerToken
                                        then searchKrogerProducts term latitude longitude
                                               radiusMiles (krogerToken ?? ""%string) w0
                                        else ([], w0)))),
                 snd (if hasWalmart
                      then searchWalmartProducts term latitude longitude radiusMiles
                             (snd (if truthyString krogerToken
                                   then searchKrogerProducts term latitude longitude
                                          radiusMiles (krogerToken ?? ""%string) w0
                                   else ([], w0)))
                      else ([], snd (if truthyString krogerToken
                                     then searchKrogerProducts term latitude longitude
                                            radiusMiles (krogerToken ?? ""%string) w0
                                     else ([], w0)))))).
  { unfold searchProducts. rewrite !run_bind.
    fold krogerToken. fold w0.
    destruct (truthyString krogerToken); destruct hasWalmart;
      rewrite ?run_bind; cbn [ret fst snd]; rewrite ?app_nil_r; reflexivity. }
  split; [exact E |].
  rewrite E. cbn [fst]. apply Forall_app. split.
  - destruct (truthyString krogerToken); [apply searchKrogerProducts_items | constructor].
  - destruct hasWalmart; [apply searchWalmartProducts_items | constructor].
Qed.

(** With no provider configured a search returns nothing and asks nothing. *)
Theorem searchProducts_unconfigured (term : string)
  (latitude longitude radiusMiles : float) (w : World) :
  truthyString (KROGER_CLIENT_ID env) = false \/
  truthyString (KROGER_CLIENT_SECRET env) = false ->
  truthyString (WALMART_PUBLISHER_ID env) = false ->
  searchProducts term latitude longitude radiusMiles w = ([], w).
Proof.
  intros Hk Hw. unfold searchProducts. rewrite run_bind.
  rewrite (getKrogerAccessToken_unconfigured w Hk). cbn [fst snd truthyString].
  rewrite run_bind. cbn [ret fst snd]. unfold hasWalmart. rewrite Hw. reflexivity.
Qed.

(** The token request, as the environment decides it. *)
Definition tokenRequest : list KrogerCall :=
  match KROGER_CLIENT_ID env, KROGER_CLIENT_SECRET env with
  | Some clientId, Some clientSecret =>
      if truthyString (Some clientId) && truthyString (Some clientSecret)
      then [PostToken clientId clientSecret]
      else []
  | _, _ => []
  end.

Lemma getKrogerAccessToken_world (w : World) :
  snd (getKrogerAccessToken w)
  = {| krogerCalls := krogerCalls w ++ tokenRequest; walmartCalls := walmartCalls w |}.
Proof.
  unfold getKrogerAccessToken, tokenRequest.
  destruct (KROGER_CLIENT_ID env) as [clientId |],
           (KROGER_CLIENT_SECRET env) as [clientSecret |];
    try (cbn [ret snd]; rewrite app_nil_r; destruct w; reflexivity).
  destruct (truthyString (Some clientId)), (truthyString (Some clientSecret));
    cbn [negb orb andb ret snd]; try (rewrite app_nil_r; destruct w; reflexivity).
  reflexivity.
Qed.

Lemma searchKrogerProducts_world (term : string) (lat lon radiusMiles : float)
  (token : string) (w : World) :
  snd (searchKrogerProducts term lat lon radiusMiles token w)
  = {| krogerCalls :=
         krogerCalls w
         ++ GetLocations (krogerLocationsQuery lat lon radiusMiles) token
            :: match fst (searchKrogerLocations lat lon radiusMiles token w) with
               | [] => []
               | loc0 :: _ => [GetProducts (krogerSearchQuery term (locationId loc0)) token]
               end;
       walmartCalls := walmartCalls w |}.
Proof.
  unfold searchKrogerProducts. rewrite run_bind, searchKrogerLocations_world.
  destruct (fst (searchKrogerLocations lat lon radiusMiles token w)) as [| loc0 rest].
  - reflexivity.
  - cbn [snd]. unfold logKroger. cbn [krogerCalls walmartCalls].
    rewrite <- app_assoc. reflexivity.
Qed.

Lemma searchWalmartProducts_world (term : string) (lat lon radiusMiles : float) (w : World) :
  snd (searchWalmartProducts term lat lon radiusMiles w)
  = {| krogerCalls := krogerCalls w;
       walmartCalls :=
         walmartCalls w
         ++ walmartCall "/search" (walmartSearchParams term)
            :: match bodyOf (walmart_search walmart (walmartCalls w)
                               (walmartCall "/search" (walmartSearchParams term))) with
               | Some _ => [walmartCall "/stores" (walmartStoresQuery lat lon radiusMiles)]
               | None => []
               end |}.
Proof.
  unfold searchWalmartProducts. rewrite run_bind.
  unfold fetchWalmartJSON at 1 2. cbn [fst snd].
  destruct (bodyOf (walmart_search walmart (walmartCalls w)
                      (walmartCall "/search" (walmartSearchParams term)))) as [data |].
  - rewrite run_bind. cbn [ret snd]. rewrite searchWalmartStores_world.
    unfold logWalmart. cbn [krogerCalls walmartCalls]. rewrite <- app_assoc. reflexivity.
  - reflexivity.
Qed.

(** The requests of a search, all of them and in order.  Of Kroger: the
    token request, then, with a token, the store search and one product
    search, for the term with limit 20, at the first store located if one
    was.  Of Walmart, when configured: the product search and then, only if
    that was answered, the store search.  At most five requests, whatever
    the number of stores nearby, where a scan makes one per store. *)
Theorem search_asks_at_most_five_requests (term : string)
  (latitude longitude radiusMiles : float) (w : World) :
  let krogerToken := fst (getKrogerAccessToken w) in
  let token := krogerToken ?? ""%string in
  let krogerAsked :=
    if truthyString krogerToken then
      GetLocations (krogerLocationsQuery latitude longitude radiusMiles) token
      :: match fst (searchKrogerLocations latitude longitude radiusMiles token
                      (snd (getKrogerAccessToken w))) with
         | [] => []
         | loc0 :: _ => [GetProducts (krogerSearchQuery term (locationId loc0)) token]
         end
    else [] in
  let walmartAsked :=
    if hasWalmart then
      walmartCall "/search" (walmartSearchParams term)
      :: match bodyOf (walmart_search walmart (walmartCalls w)
                         (walmartCall "/search" (walmartSearchParams term))) with
         | Some _ => [walmartCall "/stores" (walmartStoresQuery latitude longitude radiusMiles)]
         | None => []
         end
    else [] in
  snd (searchProducts term latitude longitude radiusMiles w)
  = {| krogerCalls := krogerCalls w ++ tokenRequest ++ krogerAsked;
       walmartCalls := walmartCalls w ++ walmartAsked |} /\
  (List.length (tokenRequest ++ krogerAsked) <= 3)%nat /\
  (List.length walmartAsked <= 2)%nat.
Proof.
  cbv zeta.
  set (krogerToken := fst (getKrogerAccessToken w)).
  split; [| split].
  - unfold searchProducts. rewrite !run_bind. fold krogerToken.
    destruct (truthyString krogerToken); destruct hasWalmart;
      rewrite ?run_bind; cbn [ret snd];
      rewrite ?searchWalmartProducts_world, ?searchKrogerProducts_world,
        getKrogerAccessToken_world;
      cbn [krogerCalls walmartCalls]; rewrite ?app_nil_r, <- ?app_assoc; reflexivity.
  - rewrite length_app.
    assert (List.length tokenRequest <= 1)%nat.
    { unfold tokenRequest.
      destruct (KROGER_CLIENT_ID env), (KROGER_CLIENT_SECRET env); cbn [List.length];
        try lia.
      destruct (truthyString _ && truthyString _); cbn [List.length]; lia. }
    destruct (truthyString krogerToken); [| cbn [List.length]; lia].
    destruct (fst (searchKrogerLocations _ _ _ _ _)); cbn [List.length]; lia.
  - destruct hasWalmart; [| cbn [List.length]; lia].
    destruct (bodyOf _); cbn [List.length]; lia.
Qed.

(* ================================================================= *)
(** ** The screens *)

(** *** Expanding and collapsing rows

    [toggleItem(id)] of the scan and search screens updates [expandedIds]
    with [ids => ids.includes(id) ? ids.filter(i => i !== id) : [...ids, id]]. *)
Definition toggleItem (id : string) (ids : list string) : list string :=
  if existsb (fun i => (i =? id)%string) ids
  then filter (fun i => negb (i =? id)%string) ids
  else ids ++ [id].

(** A row shows its details when [expandedIds.includes(item.id)]. *)
Definition showDetails (expandedIds : list string) (id : string) : bool :=
  existsb (fun i => (i =? id)%string) expandedIds.

Lemma showDetails_app (ids ids' : list string) (id : string) :
  showDetails (ids ++ ids') id = showDetails ids id || showDetails ids' id.
Proof. apply existsb_app. Qed.

Lemma showDetails_filter_other (ids : list string) (id j : string) :
  j <> id ->
  showDetails (filter (fun i => negb (i =? id)%string) ids) j = showDetails ids j.
Proof.
  intros Hj. induction ids as [| i ids IH]; [reflexivity |].
  cbn [filter]. destruct (String.eqb_spec i id) as [-> | Hi]; cbn [negb showDetails existsb].
  - fold (showDetails (filter (fun i => negb (i =? id)%string) ids) j).
    fold (showDetails ids j). rewrite IH.
    destruct (String.eqb_spec id j) as [<- | _]; [contradiction Hj; reflexivity | reflexivity].
  - fold (showDetails (filter (fun i => negb (i =? id)%string) ids) j).
    fold (showDetails ids j). rewrite IH. reflexivity.
Qed.

Lemma showDetails_filter_self (ids : list string) (id : string) :
  showDetails (filter (fun i => negb (i =? id)%string) ids) id = false.
Proof.
  induction ids as [| i ids IH]; [reflexivity |].
  cbn [filter]. destruct (String.eqb_spec i id) as [-> | Hi]; cbn [negb]; [exact IH |].
  cbn [showDetails existsb]. apply String.eqb_neq in Hi. rewrite Hi. exact IH.
Qed.

Lemma filter_other_id (ids : list string) (id : string) :
  showDetails ids id = false -> filter (fun i => negb (i =? id)%string) ids = ids.
Proof.
  induction ids as [| i ids IH]; [reflexivity |].
  cbn [showDetails existsb filter]. intros [Hi Hids]%orb_false_elim.
  rewrite Hi. cbn [negb]. f_equal. apply IH, Hids.
Qed.

(** A tap flips the tapped row and no other: the row with the tapped id is
    shown after the tap exactly when it was hidden before, every other row
    stays as it was, the other ids keep their order, and a list without
    repetitions stays without repetitions. *)
Theorem toggleItem_flips_one_row (id : string) (ids : list string) :
  showDetails (toggleItem id ids) id = negb (showDetails ids id) /\
  (forall j, j <> id -> showDetails (toggleItem id ids) j = showDetails ids j) /\
  filter (fun i => negb (i =? id)%string) (toggleItem id ids)
  = filter (fun i => negb (i =? id)%string) ids /\
  (NoDup ids -> NoDup (toggleItem id ids)).
Proof.
  unfold toggleItem. fold (showDetails ids id).
  destruct (showDetails ids id) eqn:Hid; cbn [negb].
  - split; [apply showDetails_filter_self |].
    split; [intros j Hj; apply showDetails_filter_other, Hj |].
    split; [apply filter_other_id, showDetails_filter_self |].
    apply NoDup_filter.
  - split.
    { rewrite showDetails_app, Hid. cbn. rewrite String.eqb_refl. reflexivity. }
    split.
    { intros j Hj. rewrite showDetails_app. cbn.
      destruct (String.eqb_spec id j) as [<- | _]; [contradiction Hj; reflexivity |].
      rewrite !orb_false_r. reflexivity. }
    split.
    { rewrite filter_app. cbn. rewrite String.eqb_refl. cbn. apply app_nil_r. }
    intros Hnd. apply NoDup_app; [exact Hnd | repeat constructor; intros [] |].
    intros x Hx [<- | []].
    assert (showDetails ids id = true) as Hs; [| rewrite Hs in Hid; discriminate].
    apply existsb_exists. exists id. split; [exact Hx | apply String.eqb_refl].
Qed.

(** Two taps on a row.  Expanding then collapsing gives the list back as it
    was.  Collapsing then expanding does not: the id moves to the end, once,
    whatever its position and however often it occurred. *)
Theorem toggleItem_twice (id : string) (ids : list string) :
  toggleItem id (toggleItem id ids)
  = if showDetails ids id
    then filter (fun i => negb (i =? id)%string) ids ++ [id]
    else ids.
Proof.
  unfold toggleItem at 1. fold (showDetails (toggleItem id ids) id).
  unfold toggleItem. fold (showDetails ids id).
  destruct (showDetails ids id) eqn:Hid.
  - rewrite showDetails_filter_self. reflexivity.
  - rewrite showDetails_app, Hid. cbn. rewrite String.eqb_refl. cbn.
    rewrite filter_app. cbn. rewrite String.eqb_refl. cbn. rewrite app_nil_r.
    apply filter_other_id, Hid.
Qed.

(* ----------------------------------------------------------------- *)
(** *** Where the device is

    Both the scanner and the search screen obtain coordinates with the same
    block.  [locationPermission] is what [Location.useForegroundPermissions]
    returned at the render that created the closure: a constant of the
    closure, read as [locationPermission?.granted] before and again after
    [await requestLocationPermission()]. *)

Record PermissionResponse : Type := {
  perm_granted : bool;
  perm_canAskAgain : bool
}.

Record LocationCoords : Type := {
  coords_latitude : float;
  coords_longitude : float
}.

(** How an awaited promise settles.  A rejection is observed by the scanner
    through [e?.message] only. *)
Inductive Settled (A : Type) : Type :=
| Fulfilled (a : A)
| Rejected (message : option string).
#[global] Arguments Fulfilled {A} a.
#[global] Arguments Rejected {A} message.

(** What the device answers to the two calls of the block. *)
Record Device : Type := {
  requestLocationPermission : Settled unit;
  getCurrentPositionAsync : Settled LocationCoords
}.

(** [locationPermission?.granted], [locationPermission?.canAskAgain]. *)
Definition granted (locationPermission : option PermissionResponse) : bool :=
  match locationPermission with
  | Some p => perm_granted p
  | None => false
  end.

Definition canAskAgain (locationPermission : option PermissionResponse) : bool :=
  match locationPermission with
  | Some p => perm_canAskAgain p
  | None => false
  end.

Definition currentCoords (device : Device) : Settled (option LocationCoords) :=
  match getCurrentPositionAsync device with
  | Fulfilled loc =>
      Fulfilled (Some {| coords_latitude := coords_latitude loc;
                         coords_longitude := coords_longitude loc |})
  | Rejected e => Rejected e
  end.

(** The block: [coords] at its end, or the rejection that left it. *)
Definition ensureLocation (locationPermission : option PermissionResponse)
  (device : Device) : Settled (option LocationCoords) :=
  if granted locationPermission then currentCoords device
  else
    match (if canAskAgain locationPermission
           then requestLocationPermission device
           else Fulfilled tt) with
    | Rejected e => Rejected e
    | Fulfilled _ =>
        if granted locationPermission then currentCoords device
        else Fulfilled None
    end.

(* ----------------------------------------------------------------- *)
(** *** The scanner modal

    [handleBarcodeScanned] acts through the setters of the modal, the history
    context and the router; a run of it is the sequence of those calls. *)
Inductive ScannerUpdate : Type :=
| SetProcessing (value : bool)
| SetError (message : option string)
| AddItem (item : Item.t)
| RouterBack.

(** [isProcessing] is the value of the render that created the handler. *)
Definition handleBarcodeScanned (isProcessing : bool)
  (locationPermission : option PermissionResponse) (device : Device)
  (data : string) : M (list ScannerUpdate) :=
  if isProcessing then ret []
  else
    body <-
      match ensureLocation locationPermission device with
      | Rejected e => ret [SetError (Some (e ?? "Unknown error"%string))]
      | Fulfilled None =>
          ret [SetError (Some "Location permission is required to evaluate deals."%string)]
      | Fulfilled (Some coords) =>
          r <- fetchProductWithDeals data (coords_latitude coords)
                 (coords_longitude coords) 5 ;;
          match fst r with
          | None => ret [SetError (Some ("No product found for code " ++ data)%string)]
          | Some product => ret [AddItem (evaluateDeal product (snd r)); RouterBack]
          end
      end ;;
    ret (SetProcessing true :: body ++ [SetProcessing false]).

(** State the updates act on: the modal's, the history of [HistoryProvider]
    ([addItem] is [setHistory(prev => [item, ...prev])]) and whether the
    router was told to go back. *)
Record Scanner : Type := {
  isProcessing : bool;
  error : option string;
  history : list Item.t;
  wentBack : bool
}.

Definition addItem (item : Item.t) (prev : list Item.t) : list Item.t := item :: prev.

Definition applyScannerUpdate (s : Scanner) (u : ScannerUpdate) : Scanner :=
  match u with
  | SetProcessing value =>
      {| isProcessing := value; error := error s; history := history s;
         wentBack := wentBack s |}
  | SetError message =>
      {| isProcessing := isProcessing s; error := message; history := history s;
         wentBack := wentBack s |}
  | AddItem item =>
      {| isProcessing := isProcessing s; error := error s;
         history := addItem item (history s); wentBack := wentBack s |}
  | RouterBack =>
      {| isProcessing := isProcessing s; error := error s; history := history s;
         wentBack := true |}
  end.

Lemma ensureLocation_not_granted (locationPermission : option PermissionResponse)
  (device : Device) :
  granted locationPermission = false ->
  ensureLocation locationPermission device = Fulfilled None \/
  exists e, ensureLocation locationPermission device = Rejected e /\
            canAskAgain locationPermission = true /\
            requestLocationPermission device = Rejected e.
Proof.
  intros Hg. unfold ensureLocation. rewrite Hg.
  destruct (canAskAgain locationPermission); [| left; reflexivity].
  destruct (requestLocationPermission device) as [[] | e]; [left; reflexivity |].
  right. exists e. repeat split.
Qed.

(** A scan made from a render in which location permission is not granted
    never reaches the providers and adds nothing to the history, whatever
    the user answers when asked: the answer is not read, the closure reads
    the permission it captured.  The scan ends with an error message. *)
Theorem scan_needs_permission_granted_before (locationPermission : option PermissionResponse)
  (device : Device) (data : string) (w : World) :
  granted locationPermission = false ->
  exists message,
    handleBarcodeScanned false locationPermission device data w
    = ([SetProcessing true; SetError (Some message); SetProcessing false], w) /\
    (requestLocationPermission device = Fulfilled tt \/ canAskAgain locationPermission = false ->
     message = "Location permission is required to evaluate deals."%string).
Proof.
  intros Hg. unfold handleBarcodeScanned. rewrite run_bind.
  destruct (ensureLocation_not_granted locationPermission device Hg)
    as [-> | (e & -> & Hask & Hrej)].
  - eexists. split; [reflexivity | intros _; reflexivity].
  - eexists. split; [reflexivity |].
    intros [H | H]; [rewrite H in Hrej; discriminate | rewrite H in Hask; discriminate].
Qed.

Lemma fetched_item_fresh (upc : string) (latitude longitude radiusMiles : float)
  (w : World) (item : Item.t) :
  fst (fst (fetchProductWithDeals upc latitude longitude radiusMiles w)) = Some item ->
  freshItem upc item.
Proof.
  rewrite fetchProductWithDeals_run.
  pose proof (candidates_fresh upc latitude longitude radiusMiles w) as Hc.
  destruct (candidates upc latitude longitude radiusMiles w)
    as [[[krogerToken krogerItem] walmartItem] w1].
  cbn [fst] in Hc.
  destruct (orTry krogerItem walmartItem) as [item0 |]; [| discriminate].
  destruct (competitorDeals upc latitude longitude radiusMiles
              krogerToken krogerItem walmartItem w1) as [deals w2].
  cbn [fst]. intros [= <-]. exact Hc.
Qed.

Lemma evaluateDeal_tagged (scanned : Item.t) (deals : list Recommendation.t) :
  Item.tag (evaluateDeal scanned deals) <> None.
Proof.
  unfold evaluateDeal. destruct deals as [| cheapest rest].
  - cbn. destruct (Item.tag scanned); discriminate.
  - destruct (Item.price scanned <=? Recommendation.price cheapest)%float;
      [| destruct (Item.price scanned <=? Recommendation.price cheapest * (1 + margin))%float];
      cbn [Item.tag]; discriminate.
Qed.

(** Every run of the scan handler that gets past its guard ends with
    [isProcessing] off, and either sets an error and leaves the history and
    the router alone, or puts exactly one item at the front of the history
    and goes back, leaving the error as it was.  The item added carries the
    scanned code as its id and a verdict. *)
Theorem scan_outcome (locationPermission : option PermissionResponse)
  (device : Device) (data : string) (w : World) (s : Scanner) :
  let s' := fold_left applyScannerUpdate
              (fst (handleBarcodeScanned false locationPermission device data w)) s in
  isProcessing s' = false /\
  ((exists message,
      error s' = Some message /\ history s' = history s /\ wentBack s' = wentBack s) \/
   (exists item,
      history s' = item :: history s /\ Item.id item = data /\ Item.tag item <> None /\
      error s' = error s /\ wentBack s' = true)).
Proof.
  unfold handleBarcodeScanned. rewrite run_bind. cbn [ret fst].
  destruct (ensureLocation locationPermission device) as [[coords |] | e].
  - rewrite run_bind.
    destruct (fst (fetchProductWithDeals data (coords_latitude coords)
                     (coords_longitude coords) 5 w)) as [product deals] eqn:Hr.
    cbn [fst snd]. destruct product as [product |]; cbn.
    + split; [reflexivity |]. right. exists (evaluateDeal product deals).
      split; [reflexivity |]. split; [| split; [apply evaluateDeal_tagged | split; reflexivity]].
      rewrite (proj1 (evaluateDeal_frame product deals)).
      apply (fetched_item_fresh data (coords_latitude coords) (coords_longitude coords) 5 w).
      rewrite Hr. reflexivity.
    + split; [reflexivity |]. left. eexists. repeat split.
  - cbn. split; [reflexivity |]. left. eexists. repeat split.
  - cbn. split; [reflexivity |]. left. eexists. repeat split.
Qed.

(* ----------------------------------------------------------------- *)
(** *** The search screen *)

Inductive SearchUpdate : Type :=
| SetResults (items : list Item.t)
| SetLoading (value : bool).

(** One run of the effect's [search()].  [cancelled] is the flag as it stands
    when [searchProducts] has settled; the effect's cleanup sets it when the
    query or the permission changes.  The block that obtains coordinates is
    outside the [try], so its rejection rejects [search()] before any update. *)
Definition search (query : string) (locationPermission : option PermissionResponse)
  (device : Device) (cancelled : bool) : M (Settled (list SearchUpdate)) :=
  let q := trim query in
  if negb (truthyString (Some q)) then ret (Fulfilled [SetResults []])
  else
    match ensureLocation locationPermission device with
    | Rejected e => ret (Rejected e)
    | Fulfilled None => ret (Fulfilled [SetResults []])
    | Fulfilled (Some coords) =>
        items <- searchProducts q (coords_latitude coords) (coords_longitude coords) 5 ;;
        ret (Fulfilled (SetLoading true
                        :: (if negb cancelled then [SetResults items] else [])
                        ++ (if negb cancelled then [SetLoading false] else [])))
    end.

Record SearchScreen : Type := {
  results : list Item.t;
  loading : bool
}.

Definition applySearchUpdate (s : SearchScreen) (u : SearchUpdate) : SearchScreen :=
  match u with
  | SetResults items => {| results := items; loading := loading s |}
  | SetLoading value => {| results := results s; loading := value |}
  end.

(** What the card of the search screen shows. *)
Inductive SearchCard : Type :=
| NoItemsFound
| Searching
| NoResults
| Results (items : list Item.t).

Definition searchCard (query : string) (s : SearchScreen) : SearchCard :=
  if (String.length query =? 0)%nat then NoItemsFound
  else if loading s then Searching
  else if (List.length (results s) =? 0)%nat then NoResults
  else Results (results s).

(** A blank query, or a render without granted location permission, searches
    nothing: no provider is asked, and the run either clears the results or
    is rejected by the permission request. *)
Theorem search_needs_query_and_permission (query : string)
  (locationPermission : option PermissionResponse) (device : Device) (cancelled : bool)
  (w : World) :
  trim query = ""%string \/ granted locationPermission = false ->
  snd (search query locationPermission device cancelled w) = w /\
  (fst (search query locationPermission device cancelled w) = Fulfilled [SetResults []] \/
   trim query <> ""%string /\
   exists e, requestLocationPermission device = Rejected e /\
             fst (search query locationPermission device cancelled w) = Rejected e).
Proof.
  intros H. unfold search. cbn [truthyString].
  destruct (String.eqb_spec (trim query) "") as [Hq | Hq]; cbn [negb].
  - split; [reflexivity | left; reflexivity].
  - destruct H as [H | Hg]; [contradiction |].
    destruct (ensureLocation_not_granted locationPermission device Hg)
      as [-> | (e & -> & _ & Hrej)].
    + split; [reflexivity | left; reflexivity].
    + split; [reflexivity |]. right. split; [exact Hq |]. exists e. split; [exact Hrej | reflexivity].
Qed.

(** The loading flag can stay on.  A search that is cancelled while the
    providers are asked has set [loading] and never clears it; if the query
    that cancelled it is blank but not empty, the next run only clears the
    results, and the card shows Searching with no search under way. *)
Theorem search_cancelled_by_blank_query (query query' : string)
  (locationPermission locationPermission' : option PermissionResponse)
  (device device' : Device) (coords : LocationCoords) (cancelled' : bool)
  (w : World) (s : SearchScreen) :
  trim query <> ""%string ->
  ensureLocation locationPermission device = Fulfilled (Some coords) ->
  query' <> ""%string -> trim query' = ""%string ->
  let run := search query locationPermission device true w in
  let run' := search query' locationPermission' device' cancelled' (snd run) in
  exists updates updates',
    fst run = Fulfilled updates /\ fst run' = Fulfilled updates' /\
    snd run' = snd run /\
    searchCard query' (fold_left applySearchUpdate (updates ++ updates') s) = Searching.
Proof.
  intros Hq Hloc Hne Hblank. cbv zeta. unfold search.
  rewrite Hblank. cbn [truthyString String.eqb negb ret fst snd].
  apply String.eqb_neq in Hq. rewrite Hq, Hloc. cbn [negb].
  rewrite run_bind. cbn [ret fst snd app].
  eexists. eexists. split; [reflexivity |]. split; [reflexivity |]. split; [reflexivity |].
  cbn. unfold searchCard. cbn [loading].
  destruct query' as [| c query']; [contradiction Hne; reflexivity | reflexivity].
Qed.

End Groceri.

(* ================================================================= *)
(** ** Worked runs *)

(** The two string built-ins on ASCII text, for the runs below. *)
Fixpoint asciiToLowerCase (s : string) : string :=
  match s with
  | EmptyString => EmptyString
  | String c s' =>
      let n := nat_of_ascii c in
      String (if ((65 <=? n) && (n <=? 90))%nat then ascii_of_nat (n + 32) else c)
        (asciiToLowerCase s')
  end.

Definition isAsciiSpace (c : ascii) : bool :=
  let n := nat_of_ascii c in ((n =? 32) || ((9 <=? n) && (n <=? 13)))%nat.

Fixpoint dropSpaces (l : list ascii) : list ascii :=
  match l with
  | c :: l' => if isAsciiSpace c then dropSpaces l' else l
  | [] => []
  end.

Definition asciiTrim (s : string) : string :=
  string_of_list_ascii (rev (dropSpaces (rev (dropSpaces (list_ascii_of_string s))))).

Definition emptyWorld : World := {| krogerCalls := []; walmartCalls := [] |}.

Definition noEnv : Env :=
  {| KROGER_CLIENT_ID := None; KROGER_CLIENT_SECRET := None;
     WALMART_PUBLISHER_ID := None; WALMART_API_KEY := None |}.

Definition sampleEnv : Env :=
  {| KROGER_CLIENT_ID := Some "client"%string;
     KROGER_CLIENT_SECRET := Some "secret"%string;
     WALMART_PUBLISHER_ID := Some "publisher"%string;
     WALMART_API_KEY := None |}.

Definition krogerLocationJson (id name : string) : KrogerLocationJson :=
  {| loc_locationId := id;
     loc_address_name := Some name;
     loc_geolocation_latitude := Some 39.1%float;
     loc_geolocation_longitude := Some (-84.5)%float |}.

Definition krogerProductJson (priceInfo : KrogerPriceJson) : KrogerProductJson :=
  {| prod_description := Some "Bananas"%string;
     prod_brand := None;
     prod_items_0_price := Some priceInfo;
     prod_images_0_sizes := None;
     prod_attributes := None;
     prod_primaryDepartment := None;
     prod_upc := Some "0001"%string;
     prod_productId := None |}.

Definition walmartStoreJson (no : string) : WalmartStoreJson :=
  {| st_no := Some no; st_storeId := None; st_id := None; st_name := None;
     st_storeType := None; st_zip := None; st_zipCode := None; st_postalCode := None |}.

Definition walmartItemJson (salePrice : JsValue) : WalmartItemJson :=
  {| it_salePrice := salePrice; it_listPrice := JUndefined;
     it_msrp := JUndefined; it_price := JUndefined;
     it_name := Some "Bananas"%string; it_title := None; it_shortName := None;
     it_mediumImage := None; it_imageUrl := None; it_thumbnailImage := None;
     it_brandName := None; it_brand := None;
     it_upc := Some "0001"%string; it_itemId := None |}.

(** Kroger: two stores, Main St (2.49) and Oak Ave (2.99); a search answers
    with 21 products, one more than it was asked for. *)
Definition sampleKroger : KrogerApi :=
  {| kroger_token := fun _ _ _ => Ok {| access_token := Some "token"%string |};
     kroger_locations := fun _ _ _ =>
       Ok {| locations_data :=
               Some [krogerLocationJson "k1" "Main St"; krogerLocationJson "k2" "Oak Ave"] |};
     kroger_products := fun _ query _ =>
       match filter_term query with
       | Some _ =>
           Ok {| products_data :=
                   Some (repeat (krogerProductJson
                                   {| promo := JNull; regular := JNumber 0.59 |}) 21) |}
       | None =>
           Ok {| products_data :=
                   Some [krogerProductJson
                           {| promo := JNull;
                              regular :=
                                JNumber (if (filter_locationId query =? "k1")%string
                                         then 2.49%float else 2.99%float) |}] |}
       end |}.

Definition asksStore (no : string) (call : WalmartCall) : bool :=
  existsb (fun kv =>
             match snd kv with
             | QString s => ((fst kv =? "storeId") && (s =? no))%string
             | QNumber _ => false
             end)
          (call_params call).

(** Walmart: two stores, s1 (2.99) and s2 (2.49); a search answers with 21
    items. *)
Definition sampleWalmart : WalmartApi :=
  {| walmart_stores := fun _ _ =>
       Ok {| stores_data := Some [walmartStoreJson "s1"; walmartStoreJson "s2"];
             stores_stores := None |};
     walmart_items := fun _ call =>
       Ok {| items_items :=
               Some [walmartItemJson
                       (JNumber (if asksStore "s1" call then 2.99%float else 2.49%float))];
             items_data := None |};
     walmart_search := fun _ _ =>
       Ok {| items_items := Some (repeat (walmartItemJson (JNumber 0.59)) 21);
             items_data := None |} |}.

(** Kroger with no price on record at Oak Ave. *)
Definition krogerNoPriceAtOakAve : KrogerApi :=
  {| kroger_token := kroger_token sampleKroger;
     kroger_locations := kroger_locations sampleKroger;
     kroger_products := fun _ query _ =>
       Ok {| products_data :=
               Some [krogerProductJson
                       (if (filter_locationId query =? "k1")%string
                        then {| promo := JNull; regular := JNumber 2.49 |}
                        else {| promo := JUndefined; regular := JUndefined |})] |} |}.

(** Kroger answering a product lookup with [promo: "N/A", regular: 3.29]. *)
Definition krogerPromoNotNumeric : KrogerApi :=
  {| kroger_token := kroger_token sampleKroger;
     kroger_locations := kroger_locations sampleKroger;
     kroger_products := fun _ _ _ =>
       Ok {| products_data :=
               Some [krogerProductJson {| promo := JNotNumeric; regular := JNumber 3.29 |}] |} |}.

Definition offer (price : float) (store : string) : Recommendation.t :=
  Recommendation.mk "0001" "Bananas" price store None.

Definition sampleItem : Item.t :=
  Item.mk "0001" "Bananas" None 2.49 "" (Some "Main St"%string)
    (Some (39.1%float, (-84.5)%float)) (Some false) None None.

Definition sampleDeals : list Recommendation.t :=
  [offer 2.49 "Walmart (s2)"; offer 2.49 "Kroger (Main St)";
   offer 2.99 "Walmart (s1)"; offer 2.99 "Kroger (Oak Ave)"].

Definition sampleRun : (option Item.t * list Recommendation.t) * World :=
  fetchProductWithDeals asciiToLowerCase asciiTrim sampleEnv sampleKroger sampleWalmart
    "0001" 39.1 (-84.5) 5 emptyWorld.

Definition scanned (price : float) : Item.t :=
  Item.mk "0001" "Bananas" None price "" None None None None None.

(** Scenarios A, B and C of the spec. *)
Example scenario_A :
  let result := evaluateDeal (scanned 0.59) [offer 0.69 "a"; offer 0.79 "b"] in
  Item.tag result = Some DEAL /\
  Item.recommendations result = Some [offer 0.69 "a"; offer 0.79 "b"].
Proof. split; reflexivity. Qed.

Example scenario_B :
  let result := evaluateDeal (scanned 0.72) [offer 0.69 "a"; offer 0.75 "b"; offer 0.79 "c"] in
  Item.tag result = Some SO_SO /\
  Item.recommendations result = Some [offer 0.69 "a"; offer 0.75 "b"].
Proof. split; reflexivity. Qed.

Example scenario_C :
  let result :=
    evaluateDeal (scanned 1.00)
      [offer 0.50 "a"; offer 0.60 "b"; offer 0.70 "c"; offer 0.80 "d"] in
  Item.tag result = Some NO_DEAL /\
  Item.recommendations result = Some [offer 0.50 "a"; offer 0.60 "b"; offer 0.70 "c"].
Proof. split; reflexivity. Qed.

(** No offers: a verdict already there stays, a missing one becomes DEAL. *)
Example no_offers_runs :
  let tagged :=
    Item.mk "0001" "Bananas" None 0.59 "" None None None (Some NO_DEAL) (Some [offer 0.5 "a"]) in
  Item.tag (evaluateDeal tagged []) = Some NO_DEAL /\
  Item.recommendations (evaluateDeal tagged []) = None /\
  Item.tag (evaluateDeal (scanned 0.59) []) = Some DEAL /\
  Item.recommendations (evaluateDeal (scanned 0.59) []) = None.
Proof. repeat split; reflexivity. Qed.

(** The boundary: a scanned price of exactly [cheapest * 1.05] is SO-SO. *)
Example verdict_boundary :
  Item.tag (evaluateDeal (scanned (2 * 1.05)) [offer 2 "a"]) = Some SO_SO /\
  Item.tag (evaluateDeal (scanned 2) [offer 2 "a"]) = Some DEAL /\
  Item.tag (evaluateDeal (scanned 2.5) [offer 2 "a"]) = Some NO_DEAL.
Proof. repeat split; reflexivity. Qed.

(** C2, at a run where both providers are configured and both find the
    product.  The item is Kroger's, scanned at Main St; the deals returned
    hold the two Walmart offers and, against the claim, the two offers of
    Kroger's own per-store lookups, Main St itself among them. *)
Theorem both_found_kroger_offers_returned :
  fst sampleRun = (Some sampleItem, sampleDeals) /\
  existsb (fun d => (Recommendation.store d =? "Kroger (Main St)")%string)
          (snd (fst sampleRun)) = true.
Proof. split; vm_compute; reflexivity. Qed.

(** The run satisfies C3: sorted by price, ties in push order. *)
Lemma deals_sorted_by_price_stably_witness :
  fst sampleRun = (Some sampleItem, sampleDeals) /\
  (forall i j a b,
     (i < j)%nat -> nth_error sampleDeals i = Some a -> nth_error sampleDeals j = Some b ->
     (Recommendation.price a <=? Recommendation.price b)%float = true) /\
  (forall p,
     filter (samePrice p) sampleDeals =
     filter (samePrice p)
       (filter (notScannedStore asciiToLowerCase
                  (option_map asciiToLowerCase (Item.store sampleItem)))
          (fst (appendedOffers asciiToLowerCase asciiTrim sampleEnv sampleKroger
                  sampleWalmart "0001" 39.1 (-84.5) 5 emptyWorld)))).
Proof.
  split; [vm_compute; reflexivity |].
  apply (deals_sorted_by_price_stably asciiToLowerCase asciiTrim sampleEnv sampleKroger
           sampleWalmart "0001" 39.1 (-84.5) 5 emptyWorld (snd sampleRun)).
  vm_compute. reflexivity.
Defined.

(** The run satisfies C4: no deal is at the scanned store. *)
Lemma deals_exclude_scanned_store_witness :
  fst sampleRun = (Some sampleItem, sampleDeals) /\
  Item.store sampleItem = Some "Main St"%string /\
  Forall (fun d =>
            asciiToLowerCase (Recommendation.store d) <> asciiToLowerCase "Main St")
         sampleDeals.
Proof.
  split; [vm_compute; reflexivity |]. split; [reflexivity |].
  apply (deals_exclude_scanned_store asciiToLowerCase asciiTrim sampleEnv sampleKroger
           sampleWalmart "0001" 39.1 (-84.5) 5 emptyWorld (snd sampleRun)
           sampleItem sampleDeals "Main St").
  - vm_compute. reflexivity.
  - reflexivity.
Defined.

(** C7 at an environment with no secret at all (scenario D of the spec). *)
Lemma no_provider_no_network_call_witness :
  (KROGER_CLIENT_ID noEnv = None \/ KROGER_CLIENT_SECRET noEnv = None) /\
  WALMART_PUBLISHER_ID noEnv = None /\
  fetchProductWithDeals asciiToLowerCase asciiTrim noEnv sampleKroger sampleWalmart
    "0001" 39.1 (-84.5) 5 emptyWorld
  = ((None, []), emptyWorld).
Proof.
  split; [left; reflexivity |]. split; [reflexivity |].
  apply (no_provider_no_network_call asciiToLowerCase asciiTrim noEnv sampleKroger
           sampleWalmart "0001" 39.1 (-84.5) 5 emptyWorld).
  - left. reflexivity.
  - reflexivity.
Defined.

(** C8, at providers that answer a search with 21 elements.  Each adapter
    asks for 20 ([filter.limit=20], [numItems=20]) and returns all 21:
    neither truncates what the provider answers, where its documentation
    ("returns up to 20 items", "filtered to a maximum of 20 items") and the
    claim promise at most 20. *)
Theorem search_returns_more_than_20 :
  let krogerRun :=
    searchKrogerProducts asciiToLowerCase sampleKroger
      "bananas" 39.1 (-84.5) 5 "token" emptyWorld in
  let walmartRun :=
    searchWalmartProducts asciiToLowerCase asciiTrim sampleEnv sampleWalmart
      "bananas" 39.1 (-84.5) 5 emptyWorld in
  List.length (fst krogerRun) = 21%nat /\
  List.length (fst walmartRun) = 21%nat /\
  nth_error (krogerCalls (snd krogerRun)) 1
  = Some (GetProducts {| filter_upc := None; filter_term := Some "bananas"%string;
                         filter_locationId := "k1"; filter_limit := "20" |} "token") /\
  option_map call_params (hd_error (walmartCalls (snd walmartRun)))
  = Some [("query"%string, QString "bananas"); ("sort"%string, QString "bestseller");
          ("order"%string, QString "ascending"); ("numItems"%string, QString "20")].
Proof. repeat split; vm_compute; reflexivity. Qed.

(** C6 at a Kroger response with [promo: "N/A", regular: 3.29]: the item's
    price is [NaN], where the first present numeric value is 3.29. *)
Theorem kroger_lookup_price_not_numeric :
  option_map (fun item => is_nan (Item.price item))
    (fst (getKrogerProductByUPC asciiToLowerCase krogerPromoNotNumeric
            "0001" "k1" "token" emptyWorld)) = Some true /\
  firstPresentNumeric [JNotNumeric; JNumber 3.29] = 3.29%float.
Proof. split; vm_compute; reflexivity. Qed.

(** A store with no price on record: its lookup gives an item of price 0,
    and the deal list passes the store over. *)
Example store_without_price_omitted :
  option_map Item.price
    (fst (getKrogerProductByUPC asciiToLowerCase krogerNoPriceAtOakAve
            "0001" "k2" "token" emptyWorld)) = Some 0%float /\
  fst (getKrogerDeals asciiToLowerCase krogerNoPriceAtOakAve
         "0001" 39.1 (-84.5) 5 "token" emptyWorld)
  = [offer 2.49 "Kroger (Main St)"].
Proof. split; vm_compute; reflexivity. Qed.

(* ================================================================= *)
(** ** More worked runs *)

(** A scanned item whose price is not a number, as a Kroger lookup returns it
    when the promo field is present and not numeric. *)
Lemma evaluateDeal_nan_price_witness :
  is_nan (Item.price (scanned nan)) = true /\
  Item.tag (evaluateDeal (scanned nan) sampleDeals) = Some NO_DEAL /\
  Item.recommendations (evaluateDeal (scanned nan) sampleDeals)
  = Some [offer 2.49 "Walmart (s2)"; offer 2.49 "Kroger (Main St)"; offer 2.99 "Walmart (s1)"].
Proof.
  split; [reflexivity |].
  apply (evaluateDeal_nan_price (scanned nan) (offer 2.49 "Walmart (s2)")
           [offer 2.49 "Kroger (Main St)"; offer 2.99 "Walmart (s1)";
            offer 2.99 "Kroger (Oak Ave)"]).
  reflexivity.
Defined.

(** A scanned item with no price on record. *)
Lemma evaluateDeal_zero_price_witness :
  is_zero (Item.price (scanned 0)) = true /\
  (0 <? Recommendation.price (offer 2.49 "Walmart (s2)"))%float = true /\
  Item.tag (evaluateDeal (scanned 0) [offer 2.49 "Walmart (s2)"]) = Some DEAL.
Proof.
  split; [reflexivity |]. split; [reflexivity |].
  apply (evaluateDeal_zero_price (scanned 0) (offer 2.49 "Walmart (s2)") []); reflexivity.
Defined.

(** The sample run: Bananas at 2.49 against deals from 2.49 up is a DEAL. *)
Lemma scan_is_deal_iff_cheapest_witness :
  fst sampleRun = (Some sampleItem, sampleDeals) /\
  (Item.tag (evaluateDeal sampleItem sampleDeals) = Some DEAL <->
   Forall (fun d => (Item.price sampleItem <=? Recommendation.price d)%float = true)
          sampleDeals).
Proof.
  split; [vm_compute; reflexivity |].
  apply (scan_is_deal_iff_cheapest asciiToLowerCase asciiTrim sampleEnv sampleKroger
           sampleWalmart "0001" 39.1 (-84.5) 5 emptyWorld (snd sampleRun)
           sampleItem sampleDeals).
  - vm_compute. reflexivity.
  - discriminate.
Defined.

Lemma scan_recommendations_sorted_witness :
  Item.recommendations (evaluateDeal sampleItem sampleDeals)
  = Some [offer 2.49 "Walmart (s2)"; offer 2.49 "Kroger (Main St)"] /\
  (forall i j a b,
     (i < j)%nat ->
     nth_error [offer 2.49 "Walmart (s2)"; offer 2.49 "Kroger (Main St)"] i = Some a ->
     nth_error [offer 2.49 "Walmart (s2)"; offer 2.49 "Kroger (Main St)"] j = Some b ->
     (Recommendation.price a <=? Recommendation.price b)%float = true) /\
  Forall (fun d => is_zero (Recommendation.price d) = false /\
                   is_nan (Recommendation.price d) = false)
         [offer 2.49 "Walmart (s2)"; offer 2.49 "Kroger (Main St)"].
Proof.
  split; [reflexivity |].
  apply (scan_recommendations_sorted asciiToLowerCase asciiTrim sampleEnv sampleKroger
           sampleWalmart "0001" 39.1 (-84.5) 5 emptyWorld (snd sampleRun)
           sampleItem sampleDeals).
  - vm_compute. reflexivity.
  - reflexivity.
Defined.

(** Kroger refusing the token request. *)
Definition krogerRefusesToken : KrogerApi :=
  {| kroger_token := fun _ _ _ => HttpError 401;
     kroger_locations := kroger_locations sampleKroger;
     kroger_products := kroger_products sampleKroger |}.

Lemma scan_without_token_leaves_kroger_alone_witness :
  krogerCalls
    (snd (fetchProductWithDeals asciiToLowerCase asciiTrim sampleEnv krogerRefusesToken
            sampleWalmart "0001" 39.1 (-84.5) 5 emptyWorld))
  = [PostToken "client" "secret"].
Proof.
  apply (scan_without_token_leaves_kroger_alone asciiToLowerCase asciiTrim sampleEnv
           krogerRefusesToken sampleWalmart "0001" 39.1 (-84.5) 5 emptyWorld).
  reflexivity.
Defined.

(** A publisher id of one space. *)
Definition blankPublisherEnv : Env :=
  {| KROGER_CLIENT_ID := None; KROGER_CLIENT_SECRET := None;
     WALMART_PUBLISHER_ID := Some " "%string; WALMART_API_KEY := None |}.

Lemma blank_publisher_id_witness :
  hasWalmart blankPublisherEnv = true /\
  call_publisherId (walmartCall asciiTrim blankPublisherEnv "/stores" []) = None.
Proof.
  apply (blank_publisher_id asciiTrim blankPublisherEnv " " "/stores" []).
  - reflexivity.
  - discriminate.
  - reflexivity.
Defined.

Lemma searchProducts_unconfigured_witness :
  searchProducts asciiToLowerCase asciiTrim noEnv sampleKroger sampleWalmart
    "bananas" 39.1 (-84.5) 5 emptyWorld
  = ([], emptyWorld).
Proof.
  apply (searchProducts_unconfigured asciiToLowerCase asciiTrim noEnv sampleKroger
           sampleWalmart "bananas" 39.1 (-84.5) 5 emptyWorld).
  - left. reflexivity.
  - reflexivity.
Defined.

(** A device on which the user grants the permission when asked. *)
Definition notYetGranted : option PermissionResponse :=
  Some {| perm_granted := false; perm_canAskAgain := true |}.

Definition alreadyGranted : option PermissionResponse :=
  Some {| perm_granted := true; perm_canAskAgain := true |}.

Definition sampleDevice : Device :=
  {| requestLocationPermission := Fulfilled tt;
     getCurrentPositionAsync :=
       Fulfilled {| coords_latitude := 39.1; coords_longitude := -84.5 |} |}.

Lemma scan_needs_permission_granted_before_witness :
  exists message,
    handleBarcodeScanned asciiToLowerCase asciiTrim sampleEnv sampleKroger sampleWalmart
      false notYetGranted sampleDevice "0001" emptyWorld
    = ([SetProcessing true; SetError (Some message); SetProcessing false], emptyWorld) /\
    (requestLocationPermission sampleDevice = Fulfilled tt \/
     canAskAgain notYetGranted = false ->
     message = "Location permission is required to evaluate deals."%string).
Proof.
  apply (scan_needs_permission_granted_before asciiToLowerCase asciiTrim sampleEnv
           sampleKroger sampleWalmart notYetGranted sampleDevice "0001" emptyWorld).
  reflexivity.
Defined.

(** The same scan from a render in which the permission is granted. *)
Example scan_runs :
  fst (handleBarcodeScanned asciiToLowerCase asciiTrim sampleEnv sampleKroger sampleWalmart
         false alreadyGranted sampleDevice "0001" emptyWorld)
  = [SetProcessing true; AddItem (evaluateDeal sampleItem sampleDeals); RouterBack;
     SetProcessing false] /\
  Item.tag (evaluateDeal sampleItem sampleDeals) = Some DEAL.
Proof. split; vm_compute; reflexivity. Qed.

(** A query of three spaces. *)
Lemma search_needs_query_and_permission_witness :
  snd (search asciiToLowerCase asciiTrim sampleEnv sampleKroger sampleWalmart
         "   " alreadyGranted sampleDevice false emptyWorld) = emptyWorld /\
  (fst (search asciiToLowerCase asciiTrim sampleEnv sampleKroger sampleWalmart
          "   " alreadyGranted sampleDevice false emptyWorld)
   = Fulfilled [SetResults []] \/
   asciiTrim "   " <> ""%string /\
   exists e,
     requestLocationPermission sampleDevice = Rejected e /\
     fst (search asciiToLowerCase asciiTrim sampleEnv sampleKroger sampleWalmart
            "   " alreadyGranted sampleDevice false emptyWorld) = Rejected e).
Proof.
  apply (search_needs_query_and_permission asciiToLowerCase asciiTrim sampleEnv
           sampleKroger sampleWalmart "   " alreadyGranted sampleDevice false emptyWorld).
  left. reflexivity.
Defined.

(** Typing "bananas", then replacing it by a space while the providers are
    being asked. *)
Lemma search_cancelled_by_blank_query_witness :
  let run :=
    search asciiToLowerCase asciiTrim sampleEnv sampleKroger sampleWalmart
      "bananas" alreadyGranted sampleDevice true emptyWorld in
  let run' :=
    search asciiToLowerCase asciiTrim sampleEnv sampleKroger sampleWalmart
      " " alreadyGranted sampleDevice false (snd run) in
  exists updates updates',
    fst run = Fulfilled updates /\ fst run' = Fulfilled updates' /\
    snd run' = snd run /\
    searchCard " " (fold_left applySearchUpdate (updates ++ updates')
                      {| results := []; loading := false |}) = Searching.
Proof.
  apply (search_cancelled_by_blank_query asciiToLowerCase asciiTrim sampleEnv sampleKroger
           sampleWalmart "bananas" " " alreadyGranted alreadyGranted sampleDevice sampleDevice
           {| coords_latitude := 39.1; coords_longitude := -84.5 |} false emptyWorld
           {| results := []; loading := false |}).
  - discriminate.
  - reflexivity.
  - discriminate.
  - reflexivity.
Defined.
